(** * zip_bootanimation.py: discovery, validation and store-only archiving

    A shallow embedding of [src/zip_bootanimation.py].  The script reads and
    writes a file system and prints to standard output, so the embedding is
    written in a small state-and-exception monad over a [world] made of the
    current directory, the file-system tree and the lines printed so far.

    Modelling conventions.
    - A Python [str] is a [string]: a sequence of character codes 0..255.
      On that range [\d] is exactly [0-9] and [re.IGNORECASE] relates only
      the ASCII letters to their other case.  Names with characters beyond
      code 255 are outside the model; statements about which names the
      pattern matches are statements about names on that range.
    - A [Path] is the list of its components below the file-system root.
    - A directory is its listing: an association list in the order in which
      the operating system enumerates it ([iterdir], [scandir]).
    - The file system holds regular files, directories and sockets (entries
      that exist, are neither a directory nor a regular file, and that
      [open] refuses).  Entries that [open] reads although they are not
      regular files (devices, links to files), entries on which [open]
      blocks (a FIFO without a writer), links to directories, permissions
      and time stamps are not modelled: every file and directory can be
      read, and every regular file can be stored.  Statements that would
      read differently in their presence are made for folders that are
      [plain]: regular files and directories only.
    - A printed line is the Python [str] as a sequence of character codes;
      the two symbols beyond code 255 that the script prints (the ballot
      and the check mark) stand as the three bytes of their UTF-8
      encoding. *)

From Stdlib Require Import List String Ascii NArith ZArith Bool Lia.
From Stdlib Require Import Permutation Sorted DecimalString.
Import ListNotations.
Local Open Scope string_scope.
Local Open Scope list_scope.
Local Open Scope Z_scope.

Set Implicit Arguments.
Local Set Warnings "-register-all".

(** ** Paths (pathlib.PurePosixPath) *)

Definition path := list string.

(** [p / name] *)
Definition joinpath (p : path) (name : string) : path := p ++ [name].
Notation "p // name" := (joinpath p name) (at level 40, left associativity).

(** [p.name]: the final component, empty for the root. *)
Definition name_of (p : path) : string := last p "".

(** [p.parent] *)
Definition parent (p : path) : path := removelast p.

(** [sep.join(parts)] *)
Fixpoint join (sep : string) (parts : list string) : string :=
  match parts with
  | [] => ""
  | [x] => x
  | x :: rest => x ++ sep ++ join sep rest
  end.

(** [str(p)] for an absolute path. *)
Definition str_path (p : path) : string := "/" ++ join "/" p.

(** ** File-system trees *)

(** [zipfile.ZIP_STORED] and [zipfile.ZIP_DEFLATED]. *)
Inductive compression := ZIP_STORED | ZIP_DEFLATED.

(** What a regular file holds: plain bytes, or a zip archive given by the
    sequence of its members.  A zip member has an archive name (a relative
    path), a directory-entry flag (zipfile marks those with a trailing
    slash), a compression method and, when stored from a file, that file's
    contents. *)
Inductive content :=
| Raw (bytes : string)
| Archive (members : list member)
with member :=
| Member (arcname : path) (is_dir_entry : bool)
         (compress_type : compression) (payload : content).

Definition arcname (m : member) : path :=
  match m with Member a _ _ _ => a end.
Definition is_dir_entry (m : member) : bool :=
  match m with Member _ d _ _ => d end.
Definition compress_type (m : member) : compression :=
  match m with Member _ _ c _ => c end.
Definition payload (m : member) : content :=
  match m with Member _ _ _ x => x end.

Inductive node :=
| File (data : content)
| Dir (entries : list (string * node))
| Socket.

Definition listing := list (string * node).

(** First entry of a listing with the given name. *)
Fixpoint assoc (A : Type) (k : string) (l : list (string * A)) : option A :=
  match l with
  | [] => None
  | (k', v) :: l' => if String.eqb k k' then Some v else assoc k l'
  end.

(** Resolve a path below a node ([os.stat]). *)
Fixpoint stat (n : node) (p : path) : option node :=
  match p with
  | [] => Some n
  | c :: p' =>
      match n with
      | Dir es => match assoc c es with
                  | Some m => stat m p'
                  | None => None
                  end
      | _ => None
      end
  end.

Definition is_dir_node (n : node) : bool :=
  match n with Dir _ => true | _ => false end.

Definition is_file_node (n : node) : bool :=
  match n with File _ => true | _ => false end.

(** [Path.exists], [Path.is_dir], [Path.is_file] against a tree. *)
Definition path_exists (t : node) (p : path) : bool :=
  match stat t p with Some _ => true | None => false end.

Definition path_is_dir (t : node) (p : path) : bool :=
  match stat t p with Some n => is_dir_node n | None => false end.

Definition path_is_file (t : node) (p : path) : bool :=
  match stat t p with Some n => is_file_node n | None => false end.

(** Why a path does not resolve: a component is missing from a directory
    ([ENOENT]), or a component stands below something that is not a
    directory ([ENOTDIR]).  Meaningful when [stat n p = None]. *)
Inductive errno := ENOENT | ENOTDIR | EISDIR | ENXIO.

Fixpoint stat_errno (n : node) (p : path) : errno :=
  match p with
  | [] => ENOENT
  | c :: p' =>
      match n with
      | Dir es => match assoc c es with
                  | Some m => stat_errno m p'
                  | None => ENOENT
                  end
      | _ => ENOTDIR
      end
  end.


(** A tree is well formed when no listing in it repeats a name. *)
Fixpoint nodup_names (l : list string) : bool :=
  match l with
  | [] => true
  | x :: l' => negb (existsb (String.eqb x) l') && nodup_names l'
  end.

Fixpoint well_formed (n : node) : bool :=
  match n with
  | Dir es => nodup_names (map fst es) && forallb (fun e => well_formed (snd e)) es
  | _ => true
  end.

(** ** Validation *)

(** Lines 14-21. *)
Definition is_valid_bootanimation_folder (t : node) (folder_path : path) : bool :=
  let part0_path := folder_path // "part0" in
  let desc_path := folder_path // "desc.txt" in
  let has_part0 := path_exists t part0_path && path_is_dir t part0_path in
  let has_desc := path_exists t desc_path && path_is_file t desc_path in
  has_part0 && has_desc.

(** ** The name pattern (line 26) *)

Definition newline : ascii := ascii_of_nat 10.

(** [\d] on character codes 0..255. *)
Definition is_digit (c : ascii) : bool :=
  (48 <=? nat_of_ascii c)%nat && (nat_of_ascii c <=? 57)%nat.

(** Case folding of [re.IGNORECASE] on character codes 0..255, as far as a
    lower-case ASCII literal can tell. *)
Definition lower (c : ascii) : ascii :=
  if (65 <=? nat_of_ascii c)%nat && (nat_of_ascii c <=? 90)%nat
  then ascii_of_nat (nat_of_ascii c + 32)
  else c.

(** Match a lower-case literal at the start of [s], ignoring case; the
    remainder of [s] on success. *)
Fixpoint match_literal (lit s : string) : option string :=
  match lit with
  | EmptyString => Some s
  | String l lit' =>
      match s with
      | String c s' =>
          if Ascii.eqb (lower c) l then match_literal lit' s' else None
      | EmptyString => None
      end
  end.

(** Greedy [\d*]: the longest run of digits and what follows it. *)
Fixpoint span_digits (s : string) : string * string :=
  match s with
  | String c s' =>
      if is_digit c
      then let (ds, tl) := span_digits s' in (String c ds, tl)
      else (EmptyString, s)
  | EmptyString => (EmptyString, EmptyString)
  end.

(** [$] without [re.MULTILINE]: at the end of the string, or just before a
    newline that is the last character. *)
Definition at_dollar (rest : string) : bool :=
  match rest with
  | EmptyString => true
  | String c EmptyString => Ascii.eqb c newline
  | _ => false
  end.

(** [pattern.match(name)] for the pattern of line 26, compiled with
    [re.IGNORECASE]: start of string, the literal bootanimation, a group of
    zero or more digits, [$].  [Some g] is a match whose group 1 is [g],
    [None] is no match.  After the
    greedy run of digits the next character is not a digit, so giving digits
    back never lets [$] succeed: one attempt decides. *)
Definition pattern_match (name : string) : option string :=
  match match_literal "bootanimation" name with
  | Some rest =>
      let (digits, tl) := span_digits rest in
      if at_dollar tl then Some digits else None
  | None => None
  end.

(** [int(s)] for a string of decimal digits. *)
Definition digit_value (c : ascii) : Z := Z.of_nat (nat_of_ascii c - 48).

Fixpoint int_acc (acc : Z) (s : string) : Z :=
  match s with
  | EmptyString => acc
  | String c s' => int_acc (10 * acc + digit_value c) s'
  end.

Definition int (s : string) : Z := int_acc 0 s.

(** ** Sorting ([sorted], [list.sort]) *)

Section Sorting.
Variable A : Type.
Variable lt : A -> A -> bool.

(** Place [x], which stood in front of the elements of [l], before the
    first element that is not smaller than it. *)
Fixpoint insert (x : A) (l : list A) : list A :=
  match l with
  | [] => [x]
  | y :: l' => if lt y x then y :: insert x l' else x :: y :: l'
  end.

(** A stable sort that compares with [<] only, as Python's does. *)
Fixpoint sorted (l : list A) : list A :=
  match l with
  | [] => []
  | x :: l' => insert x (sorted l')
  end.
End Sorting.

(** Tuple comparison [(a1, a2) < (b1, b2)]. *)
Definition tuple_lt (a b : Z * Z) : bool :=
  (fst a <? fst b) || ((fst a =? fst b) && (snd a <? snd b)).

(** [sorted(l, key=key)] with keys that are pairs of integers. *)
Definition sorted_by (A : Type) (key : A -> Z * Z) (l : list A) : list A :=
  sorted (fun x y => tuple_lt (key x) (key y)) l.

(** [l.sort()] on a list of [str]. *)
Definition sort_str (l : list string) : list string := sorted String.ltb l.

(** ** Exceptions *)

Inductive exn :=
| OSError (code : errno) (filename : path)
| ValueError (msg : string)
| SystemExit (status : Z).

(** [isinstance(e, Exception)]: [SystemExit] derives from [BaseException]
    only. *)
Definition is_Exception (e : exn) : bool :=
  match e with SystemExit _ => false | _ => true end.

Inductive result (A : Type) :=
| Ok (a : A)
| Raise (e : exn).
Arguments Ok {A} a.
Arguments Raise {A} e.

(** ** Discovery *)

(** [directory.iterdir()] *)
Definition iterdir (t : node) (directory : path) : result (list path) :=
  match stat t directory with
  | Some (Dir es) => Ok (map (fun e => directory // fst e) es)
  | Some _ => Raise (OSError ENOTDIR directory)
  | None => Raise (OSError (stat_errno t directory) directory)
  end.

(** Lines 35-39. *)
Definition sort_key (p : path) : Z * Z :=
  match pattern_match (name_of p) with
  | Some (String c g) => (1, int (String c g))
  | _ => (0, 0)
  end.

(** The loop of lines 30-32. *)
Definition matching_items (t : node) (items : list path) : list path :=
  filter (fun item =>
            path_is_dir t item &&
            match pattern_match (name_of item) with
            | Some _ => true
            | None => false
            end) items.

(** Lines 25-41. *)
Definition find_bootanimation_folders (t : node) (directory : path)
  : result (list path) :=
  match iterdir t directory with
  | Ok items =>
      let bootanimation_folders := matching_items t items in
      Ok (sorted_by sort_key bootanimation_folders)
  | Raise e => Raise e
  end.

(** ** State and exceptions *)

Section Monad.
Variable S : Type.

(** A computation over a state [S] that returns or raises. *)
Definition M (A : Type) := S -> result A * S.

Definition ret (A : Type) (a : A) : M A := fun s => (Ok a, s).

Definition raise (A : Type) (e : exn) : M A := fun s => (Raise e, s).

Definition bind (A B : Type) (c : M A) (k : A -> M B) : M B :=
  fun s =>
    match c s with
    | (Ok a, s') => k a s'
    | (Raise e, s') => (Raise e, s')
    end.

(** [try: c  except Exception as e: h e] *)
Definition try_except (A : Type) (c : M A) (h : exn -> M A) : M A :=
  fun s =>
    match c s with
    | (Ok a, s') => (Ok a, s')
    | (Raise e, s') => if is_Exception e then h e s' else (Raise e, s')
    end.

(** [for x in l: acc = body x acc] *)
Fixpoint for_loop (A B : Type) (l : list A) (body : A -> B -> M B) (acc : B)
  : M B :=
  match l with
  | [] => ret acc
  | x :: l' => bind (body x acc) (for_loop l' body)
  end.

(** Lift a fallible pure step. *)
Definition lift (A : Type) (r : result A) : M A := fun s => (r, s).
End Monad.

Arguments ret {S A} a.
Arguments raise {S A} e.
Arguments bind {S A B} c k.
Arguments try_except {S A} c h.
Arguments for_loop {S A B} l body acc.
Arguments lift {S A} r.

Notation "x <- c ;; k" := (bind c (fun x => k))
  (at level 61, c at next level, right associativity).
Notation "c ;; k" := (bind c (fun _ => k))
  (at level 61, right associativity).

(** The world the script runs in. *)
Record world := World {
  cwd : path;
  fs : node;
  stdout : list string
}.

(** [print(s)] *)
Definition print (s : string) : M world unit :=
  fun w => (Ok tt, World (cwd w) (fs w) (stdout w ++ [s])).

Definition get_fs : M world node := fun w => (Ok (fs w), w).

Definition put_fs (t : node) : M world unit :=
  fun w => (Ok tt, World (cwd w) t (stdout w)).

(** ** Formatting *)

(** [str(n)] for a non-negative integer. *)
Definition str_int (n : Z) : string :=
  NilEmpty.string_of_uint (N.to_uint (Z.to_N n)).

Definition errno_number (c : errno) : Z :=
  match c with ENOENT => 2 | ENXIO => 6 | ENOTDIR => 20 | EISDIR => 21 end.

Definition strerror (c : errno) : string :=
  match c with
  | ENOENT => "No such file or directory"
  | ENXIO => "No such device or address"
  | ENOTDIR => "Not a directory"
  | EISDIR => "Is a directory"
  end.

(** [repr(s)] for a [str]: between single quotes, or between double quotes
    when [s] holds a single quote and no double quote; the chosen quote and
    the backslash are escaped with a backslash, tab, line feed and carriage
    return are written with their letters, and every other character that
    is not printable with two hexadecimal digits. *)
Definition single_quote : ascii := ascii_of_nat 39.
Definition double_quote : ascii := ascii_of_nat 34.
Definition backslash : ascii := ascii_of_nat 92.

Fixpoint contains (c : ascii) (s : string) : bool :=
  match s with
  | EmptyString => false
  | String c' s' => Ascii.eqb c c' || contains c s'
  end.

Definition hex_digit (n : nat) : ascii :=
  if (n <? 10)%nat then ascii_of_nat (48 + n) else ascii_of_nat (87 + n).

(** [c.isprintable()] on character codes 0..255: the control characters,
    the no-break space and the soft hyphen are not. *)
Definition is_printable (c : ascii) : bool :=
  let n := nat_of_ascii c in
  negb ((n <? 32) || ((127 <=? n) && (n <=? 160)) || (n =? 173))%nat.

Definition repr_char (quote c : ascii) : string :=
  let n := nat_of_ascii c in
  if Ascii.eqb c quote || Ascii.eqb c backslash then String backslash (String c "")
  else if (n =? 9)%nat then "\t"
  else if (n =? 10)%nat then "\n"
  else if (n =? 13)%nat then "\r"
  else if is_printable c then String c ""
  else "\x" ++ String (hex_digit (n / 16)) (String (hex_digit (n mod 16)) "").

Fixpoint repr_chars (quote : ascii) (s : string) : string :=
  match s with
  | EmptyString => EmptyString
  | String c s' => repr_char quote c ++ repr_chars quote s'
  end.

Definition repr_str (s : string) : string :=
  let quote := if contains single_quote s && negb (contains double_quote s)
               then double_quote else single_quote in
  String quote (repr_chars quote s ++ String quote "").

(** [str(e)].  For an [OSError] with a file name: the error number, the
    message of the operating system and the [repr] of the file name. *)
Definition str_exn (e : exn) : string :=
  match e with
  | OSError c filename =>
      "[Errno " ++ str_int (errno_number c) ++ "] " ++ strerror c ++
      ": " ++ repr_str (str_path filename)
  | ValueError msg => msg
  | SystemExit status => str_int status
  end.

(** ["-" * 60] *)
Fixpoint repeat_str (s : string) (n : nat) : string :=
  match n with
  | O => ""
  | Datatypes.S n' => s ++ repeat_str s n'
  end.

(** ** Writing files *)

Fixpoint replace_entry (name : string) (m : node) (es : listing) : listing :=
  match es with
  | [] => []
  | (k, v) :: es' =>
      if String.eqb name k then (k, m) :: es'
      else (k, v) :: replace_entry name m es'
  end.

(** Open [p] for writing and leave [c] in it: an existing regular file is
    overwritten, a missing one is created in an existing directory (the
    operating system chooses its place in the listing; it is put last). *)
Fixpoint write_file (n : node) (p : path) (c : content) : errno + node :=
  match p with
  | [] =>
      match n with
      | File _ => inr (File c)
      | Dir _ => inl EISDIR
      | Socket => inl ENXIO
      end
  | name :: p' =>
      match n with
      | Dir es =>
          match assoc name es with
          | Some m =>
              match write_file m p' c with
              | inr m' => inr (Dir (replace_entry name m' es))
              | inl e => inl e
              end
          | None =>
              match p' with
              | [] => inr (Dir (es ++ [(name, File c)]))
              | _ => inl ENOENT
              end
          end
      | _ => inl ENOTDIR
      end
  end.

Definition write (p : path) (c : content) : M world unit :=
  t <- get_fs ;;
  match write_file t p c with
  | inr t' => put_fs t'
  | inl code => raise (OSError code p)
  end.

(** ** pathlib helpers used by the script *)

(** [p.suffix]: from the last dot of the name, unless that dot is the first
    or the last character. *)
Fixpoint rfind_dot (s : string) : option nat :=
  match s with
  | EmptyString => None
  | String c s' =>
      match rfind_dot s' with
      | Some i => Some (Datatypes.S i)
      | None => if Ascii.eqb c "." then Some O else None
      end
  end.

Definition stem_and_suffix (name : string) : string * string :=
  match rfind_dot name with
  | Some i =>
      if (Nat.ltb 0 i && Nat.ltb i (String.length name - 1))%nat
      then (substring 0 i name, substring i (String.length name - i) name)
      else (name, "")
  | None => (name, "")
  end.

(** [p.with_suffix(suffix)] *)
Definition with_suffix (p : path) (suffix : string) : result path :=
  match name_of p with
  | EmptyString => Raise (ValueError "path has an empty name")
  | name => Ok (parent p // (fst (stem_and_suffix name) ++ suffix))
  end.

(** [p.relative_to(base)] *)
Fixpoint relative_to (p base : path) {struct base} : result path :=
  match base with
  | [] => Ok p
  | b :: base' =>
      match p with
      | x :: p' =>
          if String.eqb x b then relative_to p' base'
          else Raise (ValueError "path is not in the subpath")
      | [] => Raise (ValueError "path is not in the subpath")
      end
  end.

(** ** Walking a directory tree ([os.walk], top down, links not followed) *)

Definition walk_item := (path * list string * list string)%type.

Definition dir_names (es : listing) : list string :=
  map fst (filter (fun e => is_dir_node (snd e)) es).

Definition nondir_names (es : listing) : list string :=
  map fst (filter (fun e => negb (is_dir_node (snd e))) es).

(** [os.walk] yields [(top, dirs, nondirs)] and then descends into [dirs] as
    its consumer left that list: [on_dirs] is what the consumer does to it
    in place.  A name that does not resolve to a directory yields nothing
    ([scandir] fails and the error is ignored). *)
Fixpoint os_walk (on_dirs : list string -> list string)
         (n : node) (top : path) {struct n} : list walk_item :=
  match n with
  | Dir es =>
      let dirs := on_dirs (dir_names es) in
      let below := map (fun e => (fst e, os_walk on_dirs (snd e))) es in
      (top, dirs, nondir_names es) ::
      flat_map (fun d => match assoc d below with
                         | Some k => k (top // d)
                         | None => []
                         end) dirs
  | _ => []
  end.

(** ** Archiving *)

(** [zf.write(filename, arcname)] on a [ZipFile] opened with [compression];
    the state is the sequence of members written so far. *)
Definition zf_write (t : node) (compression : compression)
           (filename arc : path) : M (list member) unit :=
  fun zf =>
    match stat t filename with
    | Some (File d) => (Ok tt, zf ++ [Member arc false compression d])
    | Some (Dir _) => (Ok tt, zf ++ [Member arc true ZIP_STORED (Raw "")])
    | Some Socket => (Raise (OSError ENXIO filename), zf)
    | None => (Raise (OSError (stat_errno t filename) filename), zf)
    end.

(** Lines 53-57: the files of one directory. *)
Definition write_files (t : node) (folder_path root : path)
           (files : list string) : M (list member) unit :=
  for_loop files
    (fun file _ =>
       let file_path := root // file in
       arc <- lift (relative_to file_path folder_path) ;;
       zf_write t ZIP_STORED file_path arc)
    tt.

(** Lines 48-57: the walk.  [dirs.sort()] is the walk's [on_dirs]. *)
Definition write_tree (t : node) (folder_path : path)
  : M (list member) unit :=
  match stat t folder_path with
  | Some n =>
      for_loop (os_walk sort_str n folder_path)
        (fun '(root, dirs, files) _ =>
           let files := sort_str files in
           write_files t folder_path root files)
        tt
  | None => ret tt
  end.

(** Lines 47-59, the body of [try].  Opening the archive creates or
    truncates the file; leaving the [with] block, normally or not, closes
    it, which completes the archive with the members written so far.  The
    tree is read as it is after the file was opened. *)
Definition zip_body (folder_path output_zip : path) : M world bool :=
  write output_zip (Raw "") ;;
  t <- get_fs ;;
  let (r, zf) := write_tree t folder_path [] in
  write output_zip (Archive zf) ;;
  lift r ;;
  ret true.

(** Lines 45-62. *)
Definition zip_folder_store_only (folder_path output_zip : path)
  : M world bool :=
  try_except
    (zip_body folder_path output_zip)
    (fun e =>
       print ("  Error zipping " ++ name_of folder_path ++ ": " ++ str_exn e) ;;
       ret false).

(** ** Processing a directory *)

(** Lines 86-93: the artifacts reported as missing. *)
Definition missing_artifacts (t : node) (folder : path) : list string :=
  let part0_exists := path_exists t (folder // "part0") in
  let desc_exists := path_exists t (folder // "desc.txt") in
  let missing := [] in
  let missing := if negb part0_exists then missing ++ ["part0/"] else missing in
  let missing := if negb desc_exists then missing ++ ["desc.txt"] else missing in
  missing.

(** Lines 82-107: the body of the loop, on the counters
    [(successful, failed)]. *)
Definition process_folder (folder : path) (counts : Z * Z)
  : M world (Z * Z) :=
  let (successful, failed) := counts in
  print ("Processing: " ++ name_of folder) ;;
  t <- get_fs ;;
  if negb (is_valid_bootanimation_folder t folder) then
    let missing := missing_artifacts t folder in
    print ("  ✗ Skipped - Missing required: " ++ join ", " missing) ;;
    ret (successful, failed + 1)
  else
    output_zip <- lift (with_suffix folder ".zip") ;;
    ok <- zip_folder_store_only folder output_zip ;;
    if ok : bool then
      print ("  ✓ Created: " ++ name_of output_zip) ;;
      ret (successful + 1, failed)
    else
      ret (successful, failed + 1).

(** Lines 66-109. *)
Definition process_directory (directory : path) : M world (Z * Z) :=
  print ("Searching for bootanimation folders in: " ++ str_path directory) ;;
  print (repeat_str "-" 60) ;;
  t <- get_fs ;;
  bootanimation_folders <- lift (find_bootanimation_folders t directory) ;;
  match bootanimation_folders with
  | [] =>
      print "No bootanimation folders found." ;;
      ret (0, 0)
  | _ =>
      print ("Found " ++ str_int (Z.of_nat (List.length bootanimation_folders)) ++
             " bootanimation folder(s):" ++ String newline "") ;;
      for_loop bootanimation_folders process_folder (0, 0)
  end.

(** ** Entry point *)

(** Components of a path string, split at the slashes. *)
Fixpoint split_slash (cur s : string) : list string :=
  match s with
  | EmptyString => [cur]
  | String c s' =>
      if Ascii.eqb c "/" then cur :: split_slash "" s'
      else split_slash (cur ++ String c "") s'
  end.

(** [Path(s).resolve()]: relative to the current directory unless [s]
    starts with a slash; empty and dot components dropped, dot-dot
    components removing the component before them. *)
Definition resolve (cwd : path) (s : string) : path :=
  let base := match s with
              | String "/" _ => []
              | _ => cwd
              end in
  fold_left (fun acc part =>
               if String.eqb part "" || String.eqb part "." then acc
               else if String.eqb part ".." then removelast acc
               else acc ++ [part])
            (split_slash "" s) base.

(** [sys.exit(status)] *)
Definition sys_exit (A : Type) (status : Z) : M world A :=
  raise (SystemExit status).
Arguments sys_exit {A} status.

(** Lines 113-136, on [sys.argv]. *)
Definition main (argv : list string) : M world unit :=
  match argv with
  | _ :: arg1 :: _ =>
      w <- (fun w => (Ok w, w)) ;;
      let directory := resolve (cwd w) arg1 in
      if negb (path_exists (fs w) directory) then
        print ("Error: Directory does not exist: " ++ str_path directory) ;;
        sys_exit 1
      else if negb (path_is_dir (fs w) directory) then
        print ("Error: Path is not a directory: " ++ str_path directory) ;;
        sys_exit 1
      else
        counts <- process_directory directory ;;
        let (successful, failed) := counts : Z * Z in
        print (repeat_str "-" 60) ;;
        print ("Done! Successful: " ++ str_int successful ++
               ", Skipped/Failed: " ++ str_int failed) ;;
        if 0 <? failed then sys_exit 1 else ret tt
  | _ =>
      print "Usage: python zip_bootanimation.py <path_to_directory>" ;;
      print (String newline
               "The directory should contain bootanimation folders to zip.") ;;
      print "Each folder must have 'part0/' and 'desc.txt' to be processed." ;;
      sys_exit 1
  end.

(** The exit status of the interpreter running [main()]: a [SystemExit]
    gives its status, any other uncaught exception gives 1, and a normal
    return gives 0. *)
Definition exit_status (argv : list string) (w : world) : Z :=
  match fst (main argv w) with
  | Ok _ => 0
  | Raise (SystemExit status) => status
  | Raise _ => 1
  end.


(** ** Vocabulary of the statements *)

(** With the comparison [lt], [x] may stand before [y]. *)
Definition may_precede (A : Type) (lt : A -> A -> bool) (x y : A) : Prop :=
  lt y x = false.

(** Whatever [c] raises derives from [Exception]. *)
Definition raises_Exception {S A : Type} (c : M S A) : Prop :=
  forall s e s', c s = (Raise e, s') -> is_Exception e = true.

(** [q] is an initial segment of [p]. *)
Definition is_prefix (q p : path) : Prop := exists r, p = q ++ r.

(** The line printed when archiving raised (line 61). *)
Definition error_line (folder_path : path) (e : exn) : string :=
  "  Error zipping " ++ name_of folder_path ++ ": " ++ str_exn e.

(** The world after one more line of output, with the tree [t]. *)
Definition add_line (w : world) (t : node) (s : string) : world :=
  World (cwd w) t (stdout w ++ [s]).

(** The name holds no dot, so it has no suffix. *)
Definition no_dot (s : string) : Prop := rfind_dot s = None.

(** ** The contract in the specification's words *)

(** The kind of an entry, as far as validation can tell. *)
Definition entry_is_dir (o : option node) : bool :=
  match o with Some n => is_dir_node n | None => false end.

Definition entry_is_file (o : option node) : bool :=
  match o with Some n => is_file_node n | None => false end.

(** The listing of a folder: empty when the path is not a directory. *)
Definition listing_at (t : node) (p : path) : listing :=
  match stat t p with Some (Dir es) => es | _ => [] end.

(** Discovery, in the specification's words: the literal bootanimation in
    any case, optionally followed by a string of digits. *)
Fixpoint lowercase (s : string) : string :=
  match s with
  | EmptyString => EmptyString
  | String c s' => String (lower c) (lowercase s')
  end.

Fixpoint all_digits (s : string) : bool :=
  match s with
  | EmptyString => true
  | String c s' => is_digit c && all_digits s'
  end.

Definition bootanimation_name (name : string) : Prop :=
  exists lit digits,
    name = (lit ++ digits)%string /\
    lowercase lit = "bootanimation" /\
    all_digits digits = true.

(** The digit suffix of a folder name: the run of digits that follows the
    thirteen letters of the literal. *)
Fixpoint string_drop (n : nat) (s : string) : string :=
  match n, s with
  | Datatypes.S n', String _ s' => string_drop n' s'
  | _, _ => s
  end.

Definition digit_suffix (name : string) : string :=
  fst (span_digits (string_drop 13 name)).

(** A folder named bootanimation followed by a line feed. *)
Definition newline_name : string := "bootanimation" ++ String newline "".

Definition newline_tree : node :=
  Dir [("in", Dir [(newline_name, Dir [])])].

(** ** The calls of an archiving run *)

(** One [zf.write] call: the archive name and the entry found under it. *)
Definition call := (path * option node)%type.

(** The calls made while archiving the tree [n] whose path below the folder
    is [rel]: the files of a directory in sorted order, then its
    subdirectories in sorted order, each with everything below it. *)
Fixpoint write_calls (n : node) (rel : path) {struct n} : list call :=
  match n with
  | Dir es =>
      let below := map (fun e => (fst e, write_calls (snd e))) es in
      map (fun f => (rel // f, assoc f es)) (sort_str (nondir_names es)) ++
      flat_map (fun d => match assoc d below with
                         | Some k => k (rel // d)
                         | None => []
                         end) (sort_str (dir_names es))
  | _ => []
  end.

(** What one call does to the archive. *)
Definition write_entry (folder_path : path) (c : call) : M (list member) unit :=
  fun zf =>
    match snd c with
    | Some (File d) => (Ok tt, zf ++ [Member (fst c) false ZIP_STORED d])
    | Some (Dir _) => (Ok tt, zf ++ [Member (fst c) true ZIP_STORED (Raw "")])
    | Some Socket => (Raise (OSError ENXIO (folder_path ++ fst c)), zf)
    | None => (Raise (OSError ENOENT (folder_path ++ fst c)), zf)
    end.

Definition run_calls (folder_path : path) (calls : list call)
  : M (list member) unit :=
  for_loop calls (fun c _ => write_entry folder_path c) tt.

(** The member that a call adds, if the call succeeds. *)
Definition member_of_call (c : call) : option member :=
  match snd c with
  | Some (File d) => Some (Member (fst c) false ZIP_STORED d)
  | Some (Dir _) => Some (Member (fst c) true ZIP_STORED (Raw ""))
  | _ => None
  end.

(** The members written up to the first call that fails. *)
Fixpoint members_of_calls (calls : list call) : list member :=
  match calls with
  | [] => []
  | c :: calls' =>
      match member_of_call c with
      | Some m => m :: members_of_calls calls'
      | None => []
      end
  end.

Definition calls_ok (calls : list call) : bool :=
  forallb (fun c => match member_of_call c with
                    | Some _ => true
                    | None => false
                    end) calls.

(** The regular files among the calls, with their archive names. *)
Definition call_files (calls : list call) : list (path * content) :=
  flat_map (fun c => match snd c with
                     | Some (File d) => [(fst c, d)]
                     | _ => []
                     end) calls.

(** Archiving, in the specification's words: every regular file found
    recursively under the folder, under its path relative to the folder. *)
Fixpoint regular_files (n : node) (rel : path) {struct n}
  : list (path * content) :=
  match n with
  | Dir es =>
      flat_map (fun e => match snd e with
                         | File d => [(rel // fst e, d)]
                         | Dir _ => regular_files (snd e) (rel // fst e)
                         | Socket => []
                         end) es
  | _ => []
  end.

(** What a member stores and under which name. *)
Definition stored (m : member) : path * content := (arcname m, payload m).



(** The archive of a discovered folder stands beside it, under the
    folder's name followed by [.zip]. *)
Definition archive_path (folder : path) : path :=
  parent folder // (name_of folder ++ ".zip").

(** ** The outcome of a folder, read off a tree *)

(** Whether [p] can be opened for writing. *)
Definition writable (t : node) (p : path) : bool :=
  match write_file t p (Raw "") with inr _ => true | inl _ => false end.

(** What the archiving step returns for [folder] when it runs on the tree
    [t]. *)
Definition archiving_result (t : node) (folder : path) : result bool :=
  fst (zip_folder_store_only folder (archive_path folder) (World [] t [])).

(** The folder is counted as successful: it is valid and the archiving step
    returns [True]. *)
Definition succeeds (t : node) (folder : path) : bool :=
  is_valid_bootanimation_folder t folder &&
  match archiving_result t folder with Ok true => true | _ => false end.

(** [len([x for x in l if p x])] *)
Definition count (A : Type) (p : A -> bool) (l : list A) : Z :=
  Z.of_nat (List.length (filter p l)).

(** The tree [t] is as good as [t0] for processing the children of the
    directory [d]: the same children of [d] can be written, and the
    children whose names have no dot hold the same. *)
Definition unchanged_for (d : path) (t0 t : node) : Prop :=
  (forall y, writable t (d // y) = writable t0 (d // y)) /\
  (forall x q, rfind_dot x = None ->
               stat t (d // x ++ q) = stat t0 (d // x ++ q)).


(** ** Vocabulary of the further statements *)

(** Tuple equality [a == b]. *)
Definition tuple_eqb (a b : Z * Z) : bool :=
  (fst a =? fst b) && (snd a =? snd b).

(** The children of [directory] that the loop of lines 30-32 keeps, in the
    order of the listing. *)
Definition candidates (t : node) (directory : path) : list path :=
  matching_items t (map (fun e => directory // fst e) (listing_at t directory)).

(** The order of the walk on archive names: the files of a directory come
    in the order of their names and before everything in its
    subdirectories, and the subdirectories come in the order of their
    names. *)
Fixpoint walk_before (p q : path) : bool :=
  match p, q with
  | x :: p', y :: q' =>
      match p', q' with
      | [], [] => String.ltb x y
      | [], _ :: _ => true
      | _ :: _, [] => false
      | _ :: _, _ :: _ =>
          String.ltb x y || (String.eqb x y && walk_before p' q')
      end
  | _, _ => false
  end.

(** ** Example trees *)

(** A valid folder, an invalid one whose two artifacts exist with the wrong
    types, a folder holding a socket, and entries that discovery ignores. *)
Definition sample_tree : node :=
  Dir [("in",
        Dir [("bootanimation10", Dir []);
             ("readme", File (Raw "x"));
             ("BootAnimation2",
              Dir [("part0", Dir [("b.png", File (Raw "B"));
                                  ("a.png", File (Raw "A"));
                                  ("sub", Dir [("z", File (Raw "Z"))])]);
                   ("desc.txt", File (Raw "d"));
                   ("audio", Dir [("x.wav", File (Raw "w"))]);
                   ("Z", File (Raw "zz"))]);
             ("bootanimation",
              Dir [("part0", File (Raw "")); ("desc.txt", Dir [])]);
             ("bootanimation02",
              Dir [("part0", Dir [("s", Socket)]);
                   ("desc.txt", File (Raw "d"))]);
             ("bootanimationx", Dir []);
             ("bootanimation7", File (Raw "x"))])].

Definition sample_world : world := World [] sample_tree [].



(** A folder without [part0] whose [desc.txt] is a socket, and a folder
    holding a socket whose name has a single quote in it. *)
Definition mistyped_tree : node :=
  Dir [("in",
        Dir [("bootanimation", Dir [("desc.txt", Socket)]);
             ("bootanimation1",
              Dir [("part0", Dir [("it's", Socket)]);
                   ("desc.txt", File (Raw "d"))])])].

Definition mistyped_world : world := World [] mistyped_tree [].





(** * Properties *)

Unset Implicit Arguments.

(** ** The script on the example tree *)

Example discovery_on_sample :
  find_bootanimation_folders sample_tree ["in"] =
  Ok [["in"; "bootanimation"]; ["in"; "BootAnimation2"];
      ["in"; "bootanimation02"]; ["in"; "bootanimation10"]].
Proof. reflexivity. Qed.

Example output_on_sample :
  stdout (snd (main ["zip_bootanimation.py"; "in"] sample_world)) =
  ["Searching for bootanimation folders in: /in";
   "------------------------------------------------------------";
   "Found 4 bootanimation folder(s):" ++ String newline "";
   "Processing: bootanimation";
   "  ✗ Skipped - Missing required: ";
   "Processing: BootAnimation2";
   "  ✓ Created: BootAnimation2.zip";
   "Processing: bootanimation02";
   "  Error zipping bootanimation02: [Errno 6] No such device or address: '/in/bootanimation02/part0/s'";
   "Processing: bootanimation10";
   "  ✗ Skipped - Missing required: part0/, desc.txt";
   "------------------------------------------------------------";
   "Done! Successful: 1, Skipped/Failed: 3"]%string.
Proof. reflexivity. Qed.

Example archive_on_sample :
  stat (fs (snd (main ["zip_bootanimation.py"; "in"] sample_world)))
       ["in"; "BootAnimation2.zip"] =
  Some (File (Archive
    [Member ["Z"] false ZIP_STORED (Raw "zz");
     Member ["desc.txt"] false ZIP_STORED (Raw "d");
     Member ["audio"; "x.wav"] false ZIP_STORED (Raw "w");
     Member ["part0"; "a.png"] false ZIP_STORED (Raw "A");
     Member ["part0"; "b.png"] false ZIP_STORED (Raw "B");
     Member ["part0"; "sub"; "z"] false ZIP_STORED (Raw "Z")])).
Proof. reflexivity. Qed.

Example partial_archive_on_sample :
  stat (fs (snd (main ["zip_bootanimation.py"; "in"] sample_world)))
       ["in"; "bootanimation02.zip"] =
  Some (File (Archive [Member ["desc.txt"] false ZIP_STORED (Raw "d")])).
Proof. reflexivity. Qed.

(** The file name in an error message is written as [repr] writes it: a
    name with a single quote in it stands between double quotes, and
    characters that are not printable are escaped. *)
Example error_line_quotes :
  stdout (snd (process_folder ["in"; "bootanimation1"] (0, 0) mistyped_world)) =
  ["Processing: bootanimation1";
   "  Error zipping bootanimation1: [Errno 6] No such device or address: " ++
   String double_quote
     ("/in/bootanimation1/part0/it's" ++ String double_quote "")]%string.
Proof. reflexivity. Qed.

Example repr_escapes :
  repr_str (String newline (String (ascii_of_nat 127) "a\b'") ++
            String double_quote "")%string =
  ("'\n\x7fa\\b\'" ++ String double_quote "'")%string.
Proof. reflexivity. Qed.

Example resolve_relative :
  resolve ["home"; "user"] "../in/./x/.." = ["home"; "in"].
Proof. reflexivity. Qed.

(** ** Path resolution *)

Lemma stat_app (t : node) (p q : path) :
  stat t (p ++ q) =
  match stat t p with Some n => stat n q | None => None end.
Proof.
  revert t; induction p as [|c p IH]; intros t; simpl; [reflexivity|].
  destruct t as [d|es|]; try reflexivity.
  destruct (assoc c es) as [m|]; [apply IH|reflexivity].
Qed.

Lemma stat_child (t : node) (p : path) (name : string) :
  stat t (p // name) =
  match stat t p with
  | Some (Dir es) => assoc name es
  | _ => None
  end.
Proof.
  unfold joinpath; rewrite stat_app.
  destruct (stat t p) as [[d|es|]|]; simpl; try reflexivity.
  destruct (assoc name es); reflexivity.
Qed.

Lemma stat_child_listing (t : node) (p : path) (name : string) :
  stat t (p // name) = assoc name (listing_at t p).
Proof.
  rewrite stat_child; unfold listing_at.
  destruct (stat t p) as [[d|es|]|]; reflexivity.
Qed.

Lemma stat_errno_app (t : node) (p q : path) :
  stat_errno t (p ++ q) =
  match stat t p with Some n => stat_errno n q | None => stat_errno t p end.
Proof.
  revert t; induction p as [|c p IH]; intros t; simpl; [reflexivity|].
  destruct t as [d|es|]; try reflexivity.
  destruct (assoc c es) as [m|]; [apply IH|reflexivity].
Qed.

Lemma stat_errno_child (t : node) (p : path) (es : listing) (name : string) :
  stat t p = Some (Dir es) -> assoc name es = None ->
  stat_errno t (p // name) = ENOENT.
Proof.
  intros Hs Ha. unfold joinpath. rewrite stat_errno_app, Hs. simpl.
  now rewrite Ha.
Qed.


(** ** Validation *)

Lemma is_valid_entries (t : node) (folder_path : path) :
  is_valid_bootanimation_folder t folder_path =
  entry_is_dir (assoc "part0" (listing_at t folder_path)) &&
  entry_is_file (assoc "desc.txt" (listing_at t folder_path)).
Proof.
  unfold is_valid_bootanimation_folder, path_exists, path_is_dir, path_is_file.
  rewrite !stat_child_listing.
  destruct (assoc "part0" _), (assoc "desc.txt" _); reflexivity.
Qed.

(** C3: validation succeeds exactly when the folder's listing has an entry
    [part0] that is a directory and an entry [desc.txt] that is a regular
    file; two folders whose [part0] and [desc.txt] entries have the same
    kinds get the same verdict, whatever else they hold. *)
Theorem is_valid_bootanimation_folder_iff (t : node) (folder_path : path) :
  (is_valid_bootanimation_folder t folder_path = true <->
   exists es sub d,
     stat t folder_path = Some (Dir es) /\
     assoc "part0" es = Some (Dir sub) /\
     assoc "desc.txt" es = Some (File d)) /\
  (forall t' folder_path',
     entry_is_dir (stat t' (folder_path' // "part0")) =
       entry_is_dir (stat t (folder_path // "part0")) ->
     entry_is_file (stat t' (folder_path' // "desc.txt")) =
       entry_is_file (stat t (folder_path // "desc.txt")) ->
     is_valid_bootanimation_folder t' folder_path' =
     is_valid_bootanimation_folder t folder_path).
Proof.
  split.
  - rewrite is_valid_entries; unfold listing_at. split.
    + intros H. apply andb_prop in H as [H1 H2].
      destruct (stat t folder_path) as [[x|es|]|]; simpl in *; try discriminate.
      destruct (assoc "part0" es) as [[|sub|]|] eqn:E1; try discriminate.
      destruct (assoc "desc.txt" es) as [[d| |]|] eqn:E2; try discriminate.
      now exists es, sub, d.
    + intros (es & sub & d & -> & H1 & H2). now rewrite H1, H2.
  - intros t' p' H1 H2. rewrite !is_valid_entries.
    rewrite <- !stat_child_listing. now rewrite H1, H2.
Qed.

Lemma is_valid_bootanimation_folder_iff_witness :
  is_valid_bootanimation_folder sample_tree ["in"; "BootAnimation2"] =
  is_valid_bootanimation_folder
    (Dir [("part0", Dir []); ("desc.txt", File (Raw ""))]) [].
Proof.
  apply (proj2 (is_valid_bootanimation_folder_iff
                  (Dir [("part0", Dir []); ("desc.txt", File (Raw ""))]) []));
    reflexivity.
Defined.

(** ** Skipped folders *)

Lemma process_folder_skipped (w : world) (folder : path) (s f : Z) :
  is_valid_bootanimation_folder (fs w) folder = false ->
  process_folder folder (s, f) w =
  (Ok (s, f + 1),
   World (cwd w) (fs w)
     ((stdout w ++ [("Processing: " ++ name_of folder)%string]) ++
      [("  ✗ Skipped - Missing required: " ++
        join ", " (missing_artifacts (fs w) folder))%string])).
Proof.
  intros H. unfold process_folder, bind, print, get_fs, ret. simpl.
  now rewrite H.
Qed.

Lemma wrong_type_invalid (t : node) (folder : path) :
  (exists n, stat t (folder // "part0") = Some n /\ is_dir_node n = false) \/
  (exists n, stat t (folder // "desc.txt") = Some n /\ is_file_node n = false) ->
  is_valid_bootanimation_folder t folder = false.
Proof.
  rewrite is_valid_entries, <- !stat_child_listing.
  intros [(n & -> & H)|(n & -> & H)]; simpl; rewrite H.
  - reflexivity.
  - apply andb_false_r.
Qed.

(** C10: a folder that fails validation is skipped and counted as failed,
    the tree is left as it was, and the missing list that is printed comes
    from existence alone: it names [part0/] exactly when nothing is at
    [part0], it names [desc.txt] exactly when nothing is at [desc.txt], it
    names nothing else and nothing twice.  A folder whose [part0] exists
    without being a directory, or whose [desc.txt] exists without being a
    regular file, fails validation; so the artifact that exists with the
    wrong type is not in the list, and the list is empty when both exist. *)
Theorem skipped_missing_list_from_existence
        (w : world) (folder : path) (s f : Z) :
  let missing := missing_artifacts (fs w) folder in
  ((exists n, stat (fs w) (folder // "part0") = Some n /\
              is_dir_node n = false) \/
   (exists n, stat (fs w) (folder // "desc.txt") = Some n /\
              is_file_node n = false) ->
   is_valid_bootanimation_folder (fs w) folder = false) /\
  (is_valid_bootanimation_folder (fs w) folder = false ->
   process_folder folder (s, f) w =
     (Ok (s, f + 1),
      World (cwd w) (fs w)
        ((stdout w ++ [("Processing: " ++ name_of folder)%string]) ++
         [("  ✗ Skipped - Missing required: " ++
           join ", " missing)%string])) /\
   (In "part0/" missing <-> path_exists (fs w) (folder // "part0") = false) /\
   (In "desc.txt" missing <->
    path_exists (fs w) (folder // "desc.txt") = false) /\
   (forall x, In x missing -> x = "part0/" \/ x = "desc.txt") /\
   NoDup missing /\
   (path_exists (fs w) (folder // "part0") = true ->
    path_exists (fs w) (folder // "desc.txt") = true ->
    missing = [])).
Proof.
  intros missing. split; [apply wrong_type_invalid|]. intros Hv. split.
  - now apply process_folder_skipped.
  - subst missing. unfold missing_artifacts.
    destruct (path_exists (fs w) (folder // "part0")),
             (path_exists (fs w) (folder // "desc.txt")); simpl;
      (split; [|split; [|split; [|split]]]);
      try (split; intros HIn; simpl in HIn; intuition discriminate);
      try (intros x HIn; simpl in HIn; intuition auto);
      try (repeat constructor; simpl; intuition discriminate);
      try (intros; discriminate); try reflexivity.
Qed.

Lemma skipped_missing_list_from_existence_witness :
  process_folder ["in"; "bootanimation"] (0, 0) mistyped_world =
  (Ok (0, 1),
   World [] mistyped_tree
     ["Processing: bootanimation";
      "  ✗ Skipped - Missing required: part0/"]) /\
  process_folder ["in"; "bootanimation"] (0, 0) sample_world =
  (Ok (0, 1),
   World [] sample_tree
     ["Processing: bootanimation"; "  ✗ Skipped - Missing required: "]).
Proof.
  split.
  - destruct (skipped_missing_list_from_existence
                mistyped_world ["in"; "bootanimation"] 0 0) as [H1 H2].
    refine (proj1 (H2 (H1 _))).
    right. exists Socket. split; reflexivity.
  - destruct (skipped_missing_list_from_existence
                sample_world ["in"; "bootanimation"] 0 0) as [H1 H2].
    refine (proj1 (H2 (H1 _))).
    left. exists (File (Raw "")). split; reflexivity.
Defined.

(** ** Sorting *)

Section SortingFacts.
Variable A : Type.
Variable lt : A -> A -> bool.

Lemma insert_perm (x : A) (l : list A) : Permutation (insert lt x l) (x :: l).
Proof.
  induction l as [|y l IH]; simpl; [reflexivity|].
  destruct (lt y x); [|reflexivity].
  rewrite IH. apply perm_swap.
Qed.

Lemma sorted_perm (l : list A) : Permutation (sorted lt l) l.
Proof.
  induction l as [|x l IH]; simpl; [reflexivity|].
  rewrite insert_perm. now constructor.
Qed.

Lemma sorted_In (l : list A) (x : A) : In x (sorted lt l) <-> In x l.
Proof.
  split; apply Permutation_in; [|symmetry]; apply sorted_perm.
Qed.

Hypothesis lt_asym : forall x y, lt x y = true -> lt y x = false.
Hypothesis le_trans :
  forall x y z, may_precede lt x y -> may_precede lt y z -> may_precede lt x z.

Lemma insert_sorted (x : A) (l : list A) :
  StronglySorted (may_precede lt) l ->
  StronglySorted (may_precede lt) (insert lt x l).
Proof.
  induction 1 as [|y l Hs IH Hy]; simpl.
  - repeat constructor.
  - destruct (lt y x) eqn:E.
    + constructor; [exact IH|].
      eapply Permutation_Forall; [symmetry; apply insert_perm|].
      constructor; [apply lt_asym, E|exact Hy].
    + constructor; [now constructor|].
      constructor; [exact E|].
      eapply Forall_impl; [|exact Hy].
      intros z Hz. eapply le_trans; [exact E|exact Hz].
Qed.

Lemma sorted_sorted (l : list A) :
  StronglySorted (may_precede lt) (sorted lt l).
Proof.
  induction l; simpl; [constructor|now apply insert_sorted].
Qed.

Hypothesis le_antisym :
  forall x y, may_precede lt x y -> may_precede lt y x -> x = y.


End SortingFacts.

Lemma StronglySorted_nth (A : Type) (R : A -> A -> Prop) (l : list A) :
  StronglySorted R l ->
  forall (i j : nat) (x y : A),
    (i < j)%nat -> nth_error l i = Some x -> nth_error l j = Some y -> R x y.
Proof.
  induction 1 as [|a l Hs IH Ha]; intros i j x y Hij Hi Hj.
  - destruct i; discriminate.
  - destruct j as [|j]; [lia|]. simpl in Hj.
    destruct i as [|i]; simpl in Hi.
    + injection Hi as <-. rewrite Forall_forall in Ha.
      eapply Ha, nth_error_In, Hj.
    + eapply IH; [|exact Hi|exact Hj]. lia.
Qed.

(** Tuples of integers. *)
Lemma tuple_lt_asym (a b : Z * Z) : tuple_lt a b = true -> tuple_lt b a = false.
Proof.
  unfold tuple_lt. destruct a as [a1 a2], b as [b1 b2]; simpl.
  destruct (Z.ltb_spec a1 b1), (Z.ltb_spec b1 a1), (Z.eqb_spec a1 b1),
    (Z.eqb_spec b1 a1), (Z.ltb_spec a2 b2), (Z.ltb_spec b2 a2);
    simpl; intros; try reflexivity; try discriminate; lia.
Qed.

Lemma tuple_le_trans (a b c : Z * Z) :
  tuple_lt b a = false -> tuple_lt c b = false -> tuple_lt c a = false.
Proof.
  unfold tuple_lt. destruct a as [a1 a2], b as [b1 b2], c as [c1 c2]; simpl.
  destruct (Z.ltb_spec b1 a1), (Z.eqb_spec b1 a1), (Z.ltb_spec b2 a2),
    (Z.ltb_spec c1 b1), (Z.eqb_spec c1 b1), (Z.ltb_spec c2 b2),
    (Z.ltb_spec c1 a1), (Z.eqb_spec c1 a1), (Z.ltb_spec c2 a2);
    simpl; intros; try reflexivity; try discriminate; lia.
Qed.

Lemma sorted_by_sorted (A : Type) (key : A -> Z * Z) (l : list A) :
  StronglySorted (fun x y => tuple_lt (key y) (key x) = false)
                 (sorted_by key l).
Proof.
  unfold sorted_by.
  apply (sorted_sorted A (fun x y => tuple_lt (key x) (key y))).
  - intros x y. apply tuple_lt_asym.
  - intros x y z. unfold may_precede. apply tuple_le_trans.
Qed.

(** ** The name pattern *)

Lemma length_lowercase (s : string) :
  String.length (lowercase s) = String.length s.
Proof. induction s; simpl; congruence. Qed.

Lemma string_app_nil_r (s : string) : (s ++ "")%string = s.
Proof. induction s; simpl; [reflexivity|now f_equal]. Qed.

Lemma string_app_assoc (a b c : string) :
  ((a ++ b) ++ c)%string = (a ++ b ++ c)%string.
Proof. induction a; simpl; [reflexivity|now f_equal]. Qed.

Lemma string_drop_app (a b : string) :
  string_drop (String.length a) (a ++ b) = b.
Proof. induction a; simpl; [now destruct b|assumption]. Qed.

Lemma match_literal_inv (lit s rest : string) :
  match_literal lit s = Some rest ->
  exists pre, s = (pre ++ rest)%string /\ lowercase pre = lit.
Proof.
  revert s; induction lit as [|l lit IH]; intros s H; simpl in H.
  - injection H as <-. now exists "".
  - destruct s as [|c s]; [discriminate|].
    destruct (Ascii.eqb_spec (lower c) l) as [<-|]; [|discriminate].
    destruct (IH _ H) as (pre & -> & <-).
    now exists (String c pre).
Qed.

Lemma match_literal_app (pre rest : string) :
  match_literal (lowercase pre) (pre ++ rest) = Some rest.
Proof.
  induction pre as [|c pre IH]; simpl; [reflexivity|].
  now rewrite Ascii.eqb_refl.
Qed.

Lemma span_digits_inv (s ds tl : string) :
  span_digits s = (ds, tl) ->
  s = (ds ++ tl)%string /\ all_digits ds = true /\
  match tl with String c _ => is_digit c = false | EmptyString => True end.
Proof.
  revert ds tl; induction s as [|c s IH]; intros ds tl H; simpl in H.
  - injection H as <- <-. now repeat split.
  - destruct (is_digit c) eqn:E.
    + destruct (span_digits s) as [ds' tl'].
      injection H as <- <-.
      destruct (IH _ _ eq_refl) as (-> & H1 & H2).
      simpl. rewrite E, H1. now repeat split.
    + injection H as <- <-. now repeat split.
Qed.

Lemma span_digits_app (ds tl : string) :
  all_digits ds = true ->
  match tl with String c _ => is_digit c = false | EmptyString => True end ->
  span_digits (ds ++ tl) = (ds, tl).
Proof.
  intros H1 H2. induction ds as [|c ds IH]; simpl in *.
  - destruct tl as [|c tl]; [reflexivity|]. simpl. now rewrite H2.
  - apply andb_prop in H1 as [-> H1]. now rewrite IH.
Qed.

Lemma at_dollar_inv (tl : string) :
  at_dollar tl = true -> tl = "" \/ tl = String newline "".
Proof.
  destruct tl as [|c [|]]; simpl; try discriminate; [now left|].
  destruct (Ascii.eqb_spec c newline) as [->|]; [now right|discriminate].
Qed.

(** Group 1 of a match is the digit suffix of the name. *)
Lemma pattern_match_group (name g : string) :
  pattern_match name = Some g -> g = digit_suffix name.
Proof.
  unfold pattern_match, digit_suffix.
  destruct (match_literal "bootanimation" name) as [rest|] eqn:E;
    [|discriminate].
  apply match_literal_inv in E as (pre & -> & E).
  assert (String.length pre = 13%nat) as L
      by (rewrite <- length_lowercase, E; reflexivity).
  rewrite <- L, string_drop_app.
  destruct (span_digits rest) as [ds tl].
  destruct (at_dollar tl); [|discriminate].
  now intros [= <-].
Qed.

(** What the pattern accepts: the names of the specification, and those
    names followed by one line feed. *)
Lemma pattern_match_accepts (name : string) :
  pattern_match name <> None <->
  bootanimation_name name \/
  exists name', name = (name' ++ String newline "")%string /\
                bootanimation_name name'.
Proof.
  unfold pattern_match, bootanimation_name. split.
  - destruct (match_literal "bootanimation" name) as [rest|] eqn:E;
      [|congruence].
    apply match_literal_inv in E as (pre & -> & E).
    destruct (span_digits rest) as [ds tl] eqn:Es.
    apply span_digits_inv in Es as (-> & Hd & _).
    destruct (at_dollar tl) eqn:Ed; [|congruence]. intros _.
    apply at_dollar_inv in Ed as [->| ->].
    + left. exists pre, ds. rewrite string_app_nil_r. now repeat split.
    + right. exists (pre ++ ds)%string. split.
      * now rewrite string_app_assoc.
      * now exists pre, ds.
  - assert (forall lit ds tl,
               lowercase lit = "bootanimation" -> all_digits ds = true ->
               at_dollar tl = true ->
               match tl with
               | String c _ => is_digit c = false
               | EmptyString => True
               end ->
               match match_literal "bootanimation" (lit ++ ds ++ tl) with
               | Some rest =>
                   let (digits, tl0) := span_digits rest in
                   if at_dollar tl0 then Some digits else None
               | None => None
               end <> None) as K.
    { intros lit ds tl <- Hd Ht Hn. rewrite match_literal_app.
      rewrite (span_digits_app _ _ Hd Hn), Ht. discriminate. }
    intros [(lit & ds & -> & Hl & Hd)|(name' & -> & lit & ds & -> & Hl & Hd)].
    + specialize (K lit ds "" Hl Hd eq_refl I).
      now rewrite string_app_nil_r in K.
    + specialize (K lit ds (String newline "") Hl Hd eq_refl eq_refl).
      now rewrite string_app_assoc.
Qed.

(** ** Discovery *)

Lemma name_of_child (p : path) (name : string) : name_of (p // name) = name.
Proof. apply last_last. Qed.

Lemma parent_child (p : path) (name : string) : parent (p // name) = p.
Proof. apply removelast_last. Qed.

Lemma find_bootanimation_folders_dir (t : node) (directory : path) (es : listing) :
  stat t directory = Some (Dir es) ->
  find_bootanimation_folders t directory =
  Ok (sorted_by sort_key
        (matching_items t (map (fun e => directory // fst e) es))).
Proof.
  intros H. unfold find_bootanimation_folders, iterdir. now rewrite H.
Qed.

Lemma find_bootanimation_folders_ok (t : node) (directory : path) :
  path_is_dir t directory = true ->
  exists folders, find_bootanimation_folders t directory = Ok folders.
Proof.
  unfold path_is_dir.
  destruct (stat t directory) as [[| es |]|] eqn:E; try discriminate.
  intros _. eexists. apply find_bootanimation_folders_dir. exact E.
Qed.

(** Every path that discovery returns is a child of the input directory
    that is a directory and whose name the pattern accepts, and every such
    child is returned. *)
Lemma find_bootanimation_folders_In
      (t : node) (directory : path) (folders : list path) (p : path) :
  find_bootanimation_folders t directory = Ok folders ->
  In p folders <->
  exists name,
    p = directory // name /\
    In name (map fst (listing_at t directory)) /\
    path_is_dir t p = true /\
    pattern_match name <> None.
Proof.
  unfold find_bootanimation_folders, iterdir, listing_at.
  destruct (stat t directory) as [[| es |]|]; try discriminate.
  intros [= <-]. unfold sorted_by. rewrite sorted_In.
  unfold matching_items. rewrite filter_In, in_map_iff. split.
  - intros [([name c] & <- & Hin) H]. simpl in *.
    apply andb_prop in H as [Hd Hm]. rewrite name_of_child in Hm.
    exists name. repeat split; trivial.
    + apply in_map_iff. now exists (name, c).
    + now destruct (pattern_match name).
  - intros (name & -> & Hin & Hd & Hm). apply in_map_iff in Hin.
    destruct Hin as ([name' c] & <- & Hin). simpl in *. split.
    + now exists (name', c).
    + rewrite Hd, name_of_child. now destruct (pattern_match name').
Qed.

Lemma newline_name_not_bootanimation : ~ bootanimation_name newline_name.
Proof.
  intros (lit & ds & E & Hl & Hd).
  assert (String.length lit = 13%nat) as L
      by (rewrite <- length_lowercase, Hl; reflexivity).
  assert (ds = String newline "") as ->.
  { rewrite <- (string_drop_app lit ds), <- E, L. reflexivity. }
  discriminate.
Qed.

(** C4, at the input on which it fails: a subdirectory whose name is
    bootanimation followed by a line feed is returned by discovery, although
    that name is not the literal followed by digits. *)
Theorem discovery_accepts_trailing_newline :
  find_bootanimation_folders newline_tree ["in"] = Ok [["in"; newline_name]] /\
  ~ bootanimation_name newline_name.
Proof.
  split; [reflexivity|exact newline_name_not_bootanimation].
Qed.

(** The key of a discovered folder, read off its digit suffix. *)
Lemma sort_key_suffix (p : path) :
  pattern_match (name_of p) <> None ->
  sort_key p =
  match digit_suffix (name_of p) with
  | EmptyString => (0, 0)
  | s => (1, int s)
  end.
Proof.
  unfold sort_key. intros H.
  destruct (pattern_match (name_of p)) as [g|] eqn:E; [|congruence].
  apply pattern_match_group in E. rewrite <- E. now destruct g.
Qed.

(** C5: in the list that discovery returns, a folder without digit suffix
    never stands after a folder with one, and of two folders with digit
    suffixes the one that stands first has the smaller or equal number. *)
Theorem find_bootanimation_folders_order
        (t : node) (directory : path) (folders : list path)
        (i j : nat) (p q : path) :
  find_bootanimation_folders t directory = Ok folders ->
  (i < j)%nat ->
  nth_error folders i = Some p ->
  nth_error folders j = Some q ->
  (digit_suffix (name_of q) = "" -> digit_suffix (name_of p) = "") /\
  (digit_suffix (name_of p) <> "" -> digit_suffix (name_of q) <> "" ->
   int (digit_suffix (name_of p)) <= int (digit_suffix (name_of q))).
Proof.
  intros Hf Hij Hi Hj.
  assert (forall x, In x folders -> pattern_match (name_of x) <> None) as Hm.
  { intros x Hx.
    apply (find_bootanimation_folders_In _ _ _ x Hf) in Hx
      as (name & -> & _ & _ & H).
    now rewrite name_of_child. }
  assert (tuple_lt (sort_key q) (sort_key p) = false) as Hk.
  { unfold find_bootanimation_folders in Hf.
    destruct (iterdir t directory) as [items|]; [|discriminate].
    injection Hf as <-.
    exact (StronglySorted_nth _ _ _ (sorted_by_sorted _ sort_key _)
             i j p q Hij Hi Hj). }
  rewrite !sort_key_suffix in Hk
    by (apply Hm; eapply nth_error_In; eassumption).
  unfold tuple_lt in Hk.
  destruct (digit_suffix (name_of p)) as [|cp sp],
           (digit_suffix (name_of q)) as [|cq sq]; simpl in Hk;
    split; intros; try congruence; try discriminate.
  destruct (Z.ltb_spec (int (String cq sq)) (int (String cp sp)));
    [discriminate|lia].
Qed.

Lemma find_bootanimation_folders_order_witness :
  (digit_suffix "bootanimation10" = "" -> digit_suffix "BootAnimation2" = "") /\
  (digit_suffix "BootAnimation2" <> "" -> digit_suffix "bootanimation10" <> "" ->
   int (digit_suffix "BootAnimation2") <= int (digit_suffix "bootanimation10")).
Proof.
  apply (find_bootanimation_folders_order sample_tree ["in"]
           [["in"; "bootanimation"]; ["in"; "BootAnimation2"];
            ["in"; "bootanimation02"]; ["in"; "bootanimation10"]]
           1 3 ["in"; "BootAnimation2"] ["in"; "bootanimation10"]);
    [reflexivity|lia|reflexivity|reflexivity].
Defined.

(** ** Exceptions raised while archiving *)

Section Raises.
Variable S : Type.

Lemma raises_Exception_bind (A B : Type) (c : M S A) (k : A -> M S B) :
  raises_Exception c -> (forall a, raises_Exception (k a)) ->
  raises_Exception (bind c k).
Proof.
  intros Hc Hk s e s'. unfold bind.
  destruct (c s) as [[a|e0] s0] eqn:E.
  - apply Hk.
  - intros [= <- <-]. eapply Hc, E.
Qed.

Lemma raises_Exception_ret (A : Type) (a : A) :
  raises_Exception (ret (S := S) a).
Proof. intros s e s'. discriminate. Qed.

Lemma raises_Exception_for_loop (A B : Type) (l : list A)
      (body : A -> B -> M S B) (acc : B) :
  (forall x b, raises_Exception (body x b)) ->
  raises_Exception (for_loop l body acc).
Proof.
  intros Hb. revert acc. induction l as [|x l IH]; intros acc; simpl.
  - apply raises_Exception_ret.
  - apply raises_Exception_bind; [apply Hb|exact IH].
Qed.
End Raises.

Lemma relative_to_raises (p base : path) (e : exn) :
  relative_to p base = Raise e -> is_Exception e = true.
Proof.
  revert p; induction base as [|b base IH]; intros p; simpl; [discriminate|].
  destruct p as [|x p]; [intros H; now injection H as <-|].
  destruct (String.eqb x b); [apply IH|intros H; now injection H as <-].
Qed.

Lemma zf_write_raises (t : node) (c : compression) (filename arc : path) :
  raises_Exception (zf_write t c filename arc).
Proof.
  intros zf e zf'. unfold zf_write.
  destruct (stat t filename) as [[| |]|]; try discriminate;
    now intros [= <- <-].
Qed.

Lemma write_files_raises (t : node) (folder_path root : path)
      (files : list string) :
  raises_Exception (write_files t folder_path root files).
Proof.
  apply raises_Exception_for_loop. intros file _.
  apply raises_Exception_bind.
  - intros s e s'. unfold lift. intros [= H _].
    eapply relative_to_raises, H.
  - intros arc. apply zf_write_raises.
Qed.

Lemma write_tree_raises (t : node) (folder_path : path) :
  raises_Exception (write_tree t folder_path).
Proof.
  unfold write_tree. destruct (stat t folder_path).
  - apply raises_Exception_for_loop. intros [[root dirs] files] _.
    apply write_files_raises.
  - apply raises_Exception_ret.
Qed.

(** ** Writing a file *)

Lemma assoc_replace_same (name : string) (m m' : node) (es : listing) :
  assoc name es = Some m -> assoc name (replace_entry name m' es) = Some m'.
Proof.
  induction es as [|[k v] es IH]; simpl; [discriminate|].
  destruct (String.eqb name k) eqn:E; simpl; rewrite E; auto.
Qed.

Lemma assoc_replace_other (x name : string) (m' : node) (es : listing) :
  x <> name -> assoc x (replace_entry name m' es) = assoc x es.
Proof.
  intros Hx. induction es as [|[k v] es IH]; simpl; [reflexivity|].
  destruct (String.eqb_spec name k) as [<-|]; simpl.
  - now destruct (String.eqb_spec x name).
  - now rewrite IH.
Qed.

Lemma assoc_app_new (A : Type) (x name : string) (v : A) (es : list (string * A)) :
  assoc name es = None ->
  assoc x (es ++ [(name, v)]) =
  if String.eqb x name then Some v else assoc x es.
Proof.
  intros Hn. induction es as [|[k u] es IH]; simpl in *.
  - reflexivity.
  - destruct (String.eqb_spec name k) as [<-|Hk]; [discriminate|].
    destruct (String.eqb_spec x k) as [->|].
    + destruct (String.eqb_spec k name); congruence.
    + now apply IH.
Qed.

Lemma write_file_stat (n n' : node) (p : path) (c : content) :
  write_file n p c = inr n' -> stat n' p = Some (File c).
Proof.
  revert n n'; induction p as [|name p IH]; intros n n'; simpl.
  - destruct n; intros [= <-]; reflexivity.
  - destruct n as [|es|]; try discriminate.
    destruct (assoc name es) as [m|] eqn:E.
    + destruct (write_file m p c) as [|m'] eqn:Em; intros [= <-].
      simpl. erewrite assoc_replace_same by exact E. now apply IH with m.
    + destruct p; intros [= <-]. simpl.
      erewrite assoc_app_new by exact E. now rewrite String.eqb_refl.
Qed.

Lemma write_file_frame (n n' : node) (p : path) (c : content) (q : path) :
  write_file n p c = inr n' -> ~ is_prefix q p -> stat n' q = stat n q.
Proof.
  revert n n' q; induction p as [|name p IH]; intros n n' q; simpl.
  - destruct n; intros [= <-] Hq; try reflexivity.
    destruct q; [|reflexivity]. exfalso. apply Hq. now exists [].
  - destruct n as [|es|]; try discriminate.
    intros H Hq. destruct q as [|x q]; [exfalso; apply Hq; now eexists|].
    destruct (String.eqb_spec x name) as [->|Hx].
    + assert (~ is_prefix q p) as Hq'.
      { intros [r ->]. apply Hq. now exists r. }
      destruct (assoc name es) as [m|] eqn:E.
      * destruct (write_file m p c) as [|m'] eqn:Em; [discriminate|].
        injection H as <-.
        simpl. erewrite assoc_replace_same by exact E; rewrite E. now apply IH.
      * destruct p; [|discriminate]. injection H as <-. simpl.
        erewrite assoc_app_new by exact E. rewrite String.eqb_refl, E.
        destruct q; [|reflexivity]. exfalso. apply Hq'. now exists [].
    + destruct (assoc name es) as [m|] eqn:E.
      * destruct (write_file m p c) as [|m'] eqn:Em; [discriminate|].
        injection H as <-.
        simpl. now rewrite assoc_replace_other.
      * destruct p; [|discriminate]. injection H as <-. simpl.
        erewrite assoc_app_new by exact E.
        now destruct (String.eqb_spec x name).
Qed.

(** A file that was written can be written again. *)
Lemma write_file_again (n n' : node) (p : path) (c c' : content) :
  write_file n p c = inr n' -> exists n'', write_file n' p c' = inr n''.
Proof.
  revert n n'; induction p as [|name p IH]; intros n n'; simpl.
  - destruct n; intros [= <-]. now eexists.
  - destruct n as [|es|]; try discriminate.
    destruct (assoc name es) as [m|] eqn:E.
    + destruct (write_file m p c) as [|m'] eqn:Em; intros [= <-].
      erewrite assoc_replace_same by exact E.
      destruct (IH _ _ Em) as [m'' ->]. now eexists.
    + destruct p; intros [= <-].
      erewrite assoc_app_new by exact E. rewrite String.eqb_refl. simpl. now eexists.
Qed.


(** ** The archiving step *)

Lemma zip_body_eq (folder_path output_zip : path) (w : world) :
  zip_body folder_path output_zip w =
  match write_file (fs w) output_zip (Raw "") with
  | inl code => (Raise (OSError code output_zip), w)
  | inr t1 =>
      match write_file t1 output_zip
                       (Archive (snd (write_tree t1 folder_path []))) with
      | inl code =>
          (Raise (OSError code output_zip), World (cwd w) t1 (stdout w))
      | inr t2 =>
          match fst (write_tree t1 folder_path []) with
          | Ok _ => (Ok true, World (cwd w) t2 (stdout w))
          | Raise e => (Raise e, World (cwd w) t2 (stdout w))
          end
      end
  end.
Proof.
  unfold zip_body, bind, write, bind, get_fs.
  destruct (write_file (fs w) output_zip (Raw "")) as [code|t1]; simpl;
    [reflexivity|].
  destruct (write_tree t1 folder_path []) as [r zf] eqn:E. simpl.
  destruct (write_file t1 output_zip (Archive zf)) as [code|t2]; simpl;
    [reflexivity|].
  now destruct r as [[]|e].
Qed.

Lemma zip_body_raises (folder_path output_zip : path) :
  raises_Exception (zip_body folder_path output_zip).
Proof.
  intros w e w'. rewrite zip_body_eq.
  destruct (write_file (fs w) output_zip (Raw "")) as [code|t1];
    [now intros [= <- <-]|].
  destruct (write_file t1 output_zip _) as [code|t2];
    [now intros [= <- <-]|].
  destruct (write_tree t1 folder_path []) as [r zf] eqn:E. simpl.
  destruct r; [discriminate|]. intros [= <- <-].
  eapply write_tree_raises, E.
Qed.

(** The archiving step returns [True] when its body returns, and [False],
    after one line of output, when its body raises. *)
Lemma zip_folder_store_only_eq (folder_path output_zip : path) (w : world) :
  zip_folder_store_only folder_path output_zip w =
  match zip_body folder_path output_zip w with
  | (Ok b, w') => (Ok b, w')
  | (Raise e, w') => (Ok false, add_line w' (fs w') (error_line folder_path e))
  end.
Proof.
  unfold zip_folder_store_only, try_except.
  destruct (zip_body folder_path output_zip w) as [[b|e] w'] eqn:E;
    [reflexivity|].
  now rewrite (zip_body_raises _ _ _ _ _ E).
Qed.


Lemma zip_body_cwd (folder_path output_zip : path) (w w' : world)
      (r : result bool) :
  zip_body folder_path output_zip w = (r, w') -> cwd w' = cwd w.
Proof.
  rewrite zip_body_eq.
  destruct (write_file (fs w) output_zip (Raw "")); [now intros [= <- <-]|].
  destruct (write_file _ output_zip (Archive _)); [now intros [= <- <-]|].
  destruct (fst _); now intros [= <- <-].
Qed.

Lemma zip_folder_store_only_returns (folder_path output_zip : path) (w : world) :
  exists b w',
    zip_folder_store_only folder_path output_zip w = (Ok b, w') /\
    cwd w' = cwd w.
Proof.
  rewrite zip_folder_store_only_eq.
  destruct (zip_body folder_path output_zip w) as [[b|e] w'] eqn:E;
    do 2 eexists; (split; [reflexivity|]); simpl;
    eapply zip_body_cwd; exact E.
Qed.

(** ** The archive's path *)

Lemma no_dot_app (a b : string) : no_dot a -> no_dot b -> no_dot (a ++ b).
Proof.
  unfold no_dot. intros Ha Hb. induction a as [|c a IH]; simpl in *; trivial.
  destruct (rfind_dot a); [discriminate|]. rewrite IH by reflexivity.
  exact Ha.
Qed.

Lemma no_dot_literal (pre : string) :
  lowercase pre = "bootanimation" -> no_dot pre.
Proof.
  assert (forall lit, no_dot lit -> forall s, lowercase s = lit -> no_dot s) as K.
  { unfold no_dot. intros lit Hl s; revert lit Hl.
    induction s as [|c s IH]; intros lit Hl E; simpl in *; trivial.
    destruct lit as [|l lit]; [discriminate|]. injection E as E1 E2.
    simpl in Hl. destruct (rfind_dot lit) eqn:El; [discriminate|].
    rewrite (IH lit El E2).
    destruct (Ascii.eqb_spec c "."); [|reflexivity].
    subst c. simpl in E1. subst l. discriminate. }
  apply K. reflexivity.
Qed.

Lemma no_dot_digits (ds : string) : all_digits ds = true -> no_dot ds.
Proof.
  unfold no_dot. induction ds as [|c ds IH]; simpl; trivial.
  intros H. apply andb_prop in H as [Hc H]. rewrite (IH H).
  destruct (Ascii.eqb_spec c "."); [|reflexivity]. now subst c.
Qed.

Lemma pattern_match_no_dot (name : string) :
  pattern_match name <> None -> no_dot name /\ name <> "".
Proof.
  intros H. apply pattern_match_accepts in H.
  assert (forall n, bootanimation_name n -> no_dot n /\ n <> "") as K.
  { intros n (lit & ds & -> & Hl & Hd). split.
    - apply no_dot_app; [now apply no_dot_literal|now apply no_dot_digits].
    - destruct lit; [discriminate|]. discriminate. }
  destruct H as [H|(name' & -> & H)]; [now apply K|].
  destruct (K _ H) as [K1 K2]. split.
  - now apply no_dot_app.
  - destruct name'; [congruence|discriminate].
Qed.

Lemma with_suffix_no_dot (p : path) (suffix : string) :
  no_dot (name_of p) -> name_of p <> "" ->
  with_suffix p suffix = Ok (parent p // (name_of p ++ suffix)).
Proof.
  unfold with_suffix, stem_and_suffix, no_dot. intros Hd Hn.
  destruct (name_of p) as [|c n]; [congruence|]. now rewrite Hd.
Qed.

Lemma with_suffix_discovered (folder : path) :
  pattern_match (name_of folder) <> None ->
  with_suffix folder ".zip" = Ok (archive_path folder).
Proof.
  intros H. apply pattern_match_no_dot in H as [H1 H2].
  now apply with_suffix_no_dot.
Qed.

(** ** One folder *)

Lemma process_folder_valid (w : world) (folder : path) (s f : Z) :
  is_valid_bootanimation_folder (fs w) folder = true ->
  pattern_match (name_of folder) <> None ->
  process_folder folder (s, f) w =
  let w1 := add_line w (fs w) ("Processing: " ++ name_of folder) in
  match zip_folder_store_only folder (archive_path folder) w1 with
  | (Ok true, w2) =>
      (Ok (s + 1, f),
       add_line w2 (fs w2) ("  ✓ Created: " ++ name_of (archive_path folder)))
  | (Ok false, w2) => (Ok (s, f + 1), w2)
  | (Raise e, w2) => (Raise e, w2)
  end.
Proof.
  intros Hv Hm. unfold process_folder, bind, print, get_fs, ret, lift. simpl.
  rewrite Hv, (with_suffix_discovered _ Hm). simpl.
  unfold add_line.
  destruct (zip_folder_store_only _ _ _) as [[[]|] w2]; reflexivity.
Qed.

(** ** The order on names *)

Lemma ascii_compare_lt_trans (a b c : ascii) :
  Ascii.compare a b = Lt -> Ascii.compare b c = Lt -> Ascii.compare a c = Lt.
Proof.
  unfold Ascii.compare. rewrite !N.compare_lt_iff. apply N.lt_trans.
Qed.

Lemma string_compare_lt_trans (x y z : string) :
  String.compare x y = Lt -> String.compare y z = Lt -> String.compare x z = Lt.
Proof.
  revert y z; induction x as [|a x IH]; intros [|b y] [|c z]; simpl;
    try discriminate; trivial.
  destruct (Ascii.compare a b) eqn:Eab; try discriminate.
  - apply Ascii.compare_eq_iff in Eab as ->.
    destruct (Ascii.compare b c); try discriminate; trivial. apply IH.
  - intros _. destruct (Ascii.compare b c) eqn:Ebc; try discriminate.
    + apply Ascii.compare_eq_iff in Ebc as <-. now rewrite Eab.
    + intros _. now rewrite (ascii_compare_lt_trans _ _ _ Eab Ebc).
Qed.

Lemma string_ltb_lt (x y : string) :
  String.ltb x y = true <-> String.compare x y = Lt.
Proof. unfold String.ltb. destruct (String.compare x y); easy. Qed.

Lemma string_ltb_asym (x y : string) :
  String.ltb x y = true -> String.ltb y x = false.
Proof.
  unfold String.ltb. rewrite (String.compare_antisym x y).
  now destruct (String.compare y x).
Qed.

Lemma string_le_antisym (x y : string) :
  String.ltb y x = false -> String.ltb x y = false -> x = y.
Proof.
  unfold String.ltb. rewrite (String.compare_antisym x y).
  destruct (String.compare y x) eqn:E; simpl; try discriminate.
  intros _ _. symmetry. now apply String.compare_eq_iff.
Qed.

Lemma string_le_trans (x y z : string) :
  String.ltb y x = false -> String.ltb z y = false -> String.ltb z x = false.
Proof.
  intros Hxy Hyz.
  destruct (String.ltb z x) eqn:Hzx; [|reflexivity].
  destruct (String.ltb x y) eqn:Exy.
  - apply string_ltb_lt in Hzx, Exy.
    pose proof (string_compare_lt_trans _ _ _ Hzx Exy) as H.
    apply string_ltb_lt in H. congruence.
  - rewrite (string_le_antisym _ _ Hxy Exy) in Hzx. congruence.
Qed.

Lemma sort_str_perm (l : list string) : Permutation (sort_str l) l.
Proof. apply sorted_perm. Qed.

Lemma sort_str_In (l : list string) (x : string) :
  In x (sort_str l) <-> In x l.
Proof. apply sorted_In. Qed.

Lemma sort_str_sorted (l : list string) :
  StronglySorted (fun x y => String.ltb y x = false) (sort_str l).
Proof.
  apply (sorted_sorted string String.ltb).
  - exact string_ltb_asym.
  - exact string_le_trans.
Qed.


(** ** Induction on trees *)

Lemma node_induction (P : node -> Prop) :
  (forall d, P (File d)) ->
  P Socket ->
  (forall es, Forall (fun e => P (snd e)) es -> P (Dir es)) ->
  forall n, P n.
Proof.
  intros Hf Hs Hd.
  fix IH 1. intros [d|es|].
  - apply Hf.
  - apply Hd. induction es as [|[k c] es IHes]; constructor.
    + apply IH.
    + exact IHes.
  - apply Hs.
Qed.

(** ** Loops *)

Lemma for_loop_app (S A : Type) (l1 l2 : list A) (body : A -> unit -> M S unit) :
  forall s,
    for_loop (l1 ++ l2) body tt s =
    bind (for_loop l1 body tt) (fun _ => for_loop l2 body tt) s.
Proof.
  induction l1 as [|x l1 IH]; intros s; simpl.
  - reflexivity.
  - unfold bind in *. destruct (body x tt s) as [[[]|e] s1]; [|reflexivity].
    apply IH.
Qed.

Lemma for_loop_flat_map (S A B : Type) (g : A -> list B) (l : list A)
      (body : B -> unit -> M S unit) :
  forall s,
    for_loop (flat_map g l) body tt s =
    for_loop l (fun x _ => for_loop (g x) body tt) tt s.
Proof.
  induction l as [|x l IH]; intros s; simpl.
  - reflexivity.
  - rewrite for_loop_app. unfold bind.
    destruct (for_loop (g x) body tt s) as [[[]|e] s1]; [|reflexivity].
    apply IH.
Qed.

Lemma for_loop_ext (S A : Type) (l : list A) (body body' : A -> unit -> M S unit) :
  (forall x s, In x l -> body x tt s = body' x tt s) ->
  forall s, for_loop l body tt s = for_loop l body' tt s.
Proof.
  induction l as [|x l IH]; intros H s; simpl.
  - reflexivity.
  - unfold bind. rewrite H by now left.
    destruct (body' x tt s) as [[[]|e] s1]; [|reflexivity].
    apply IH. intros y s' Hy. apply H. now right.
Qed.

Lemma for_loop_map (S A B : Type) (g : A -> B) (l : list A)
      (body : B -> unit -> M S unit) :
  forall s,
    for_loop (map g l) body tt s = for_loop l (fun x => body (g x)) tt s.
Proof.
  induction l as [|x l IH]; intros s; simpl.
  - reflexivity.
  - unfold bind. destruct (body (g x) tt s) as [[[]|e] s1]; [|reflexivity].
    apply IH.
Qed.

(** ** The walk, call by call *)

Lemma assoc_map (A B : Type) (f : A -> B) (k : string) (l : list (string * A)) :
  assoc k (map (fun e => (fst e, f (snd e))) l) = option_map f (assoc k l).
Proof.
  induction l as [|[k' v] l IH]; simpl; [reflexivity|].
  now destruct (String.eqb k k').
Qed.

Lemma assoc_In (A : Type) (k : string) (v : A) (l : list (string * A)) :
  assoc k l = Some v -> In (k, v) l.
Proof.
  induction l as [|[k' v'] l IH]; simpl; [discriminate|].
  destruct (String.eqb_spec k k') as [->|].
  - intros [= ->]. now left.
  - intros H. right. now apply IH.
Qed.

Lemma os_walk_Dir (on_dirs : list string -> list string) (es : listing) (top : path) :
  os_walk on_dirs (Dir es) top =
  (top, on_dirs (dir_names es), nondir_names es) ::
  flat_map (fun d => match assoc d es with
                     | Some c => os_walk on_dirs c (top // d)
                     | None => []
                     end) (on_dirs (dir_names es)).
Proof.
  simpl. f_equal. apply flat_map_ext. intros d.
  rewrite (assoc_map _ _ (os_walk on_dirs)). now destruct (assoc d es).
Qed.

Lemma write_calls_Dir (es : listing) (rel : path) :
  write_calls (Dir es) rel =
  map (fun f => (rel // f, assoc f es)) (sort_str (nondir_names es)) ++
  flat_map (fun d => match assoc d es with
                     | Some c => write_calls c (rel // d)
                     | None => []
                     end) (sort_str (dir_names es)).
Proof.
  simpl. f_equal. apply flat_map_ext. intros d.
  rewrite (assoc_map _ _ write_calls). now destruct (assoc d es).
Qed.

Lemma relative_to_app (base q : path) : relative_to (base ++ q) base = Ok q.
Proof.
  induction base as [|b base IH]; simpl; [reflexivity|].
  now rewrite String.eqb_refl.
Qed.

Lemma joinpath_app (p q : path) (name : string) :
  (p ++ q) // name = p ++ (q // name).
Proof. unfold joinpath. now rewrite app_assoc. Qed.

Lemma write_files_calls (t : node) (folder_path rel : path) (es : listing)
      (files : list string) (zf : list member) :
  stat t (folder_path ++ rel) = Some (Dir es) ->
  write_files t folder_path (folder_path ++ rel) files zf =
  run_calls folder_path (map (fun f => (rel // f, assoc f es)) files) zf.
Proof.
  intros Hs. unfold write_files, run_calls. rewrite for_loop_map.
  apply for_loop_ext. intros f s _.
  unfold bind, lift. rewrite joinpath_app, relative_to_app.
  unfold zf_write, write_entry. simpl.
  rewrite <- joinpath_app, stat_child, Hs.
  destruct (assoc f es) as [[| |]|] eqn:E; try reflexivity.
  now rewrite (stat_errno_child _ _ _ _ Hs E).
Qed.

Lemma walk_calls (n : node) :
  forall (t : node) (folder_path rel : path) (zf : list member),
    stat t (folder_path ++ rel) = Some n ->
    for_loop (os_walk sort_str n (folder_path ++ rel))
      (fun '(root, dirs, files) _ =>
         let files := sort_str files in
         write_files t folder_path root files) tt zf =
    run_calls folder_path (write_calls n rel) zf.
Proof.
  induction n as [d| |es IH] using node_induction;
    intros t folder_path rel zf Hs; try reflexivity.
  rewrite os_walk_Dir, write_calls_Dir. unfold run_calls.
  rewrite for_loop_app. cbn [for_loop]. unfold bind.
  rewrite (write_files_calls _ _ _ _ _ _ Hs). unfold run_calls.
  destruct (for_loop _ _ tt zf) as [[[]|e] zf1]; [|reflexivity].
  rewrite !for_loop_flat_map. apply for_loop_ext. intros dn s _.
  destruct (assoc dn es) as [c|] eqn:E; [|reflexivity].
  rewrite Forall_forall in IH.
  rewrite joinpath_app.
  apply (IH _ (assoc_In _ _ _ _ E)).
  rewrite <- joinpath_app, stat_child, Hs. exact E.
Qed.

Lemma write_tree_calls (t : node) (folder_path : path) (n : node)
      (zf : list member) :
  stat t folder_path = Some n ->
  write_tree t folder_path zf = run_calls folder_path (write_calls n []) zf.
Proof.
  intros Hs. unfold write_tree. rewrite Hs.
  rewrite <- (app_nil_r folder_path) at 1.
  apply walk_calls. now rewrite app_nil_r.
Qed.

Lemma run_calls_eq (folder_path : path) (calls : list call) (zf : list member) :
  snd (run_calls folder_path calls zf) = zf ++ members_of_calls calls /\
  (fst (run_calls folder_path calls zf) = Ok tt <-> calls_ok calls = true).
Proof.
  unfold run_calls. revert zf.
  induction calls as [|[arc o] calls IH]; intros zf;
    cbn [for_loop members_of_calls calls_ok forallb].
  - unfold ret. simpl. rewrite app_nil_r. now split.
  - unfold bind, write_entry at 1, member_of_call. cbn [fst snd].
    destruct o as [[d|es|]|]; cbn [fst snd andb].
    + destruct (IH (zf ++ [Member arc false ZIP_STORED d])) as [E1 E2].
      rewrite E1, <- app_assoc. now split.
    + destruct (IH (zf ++ [Member arc true ZIP_STORED (Raw "")])) as [E1 E2].
      rewrite E1, <- app_assoc. now split.
    + rewrite app_nil_r. now split.
    + rewrite app_nil_r. now split.
Qed.

(** The body of the archiving step raises errors of the operating system
    only: [relative_to] is applied to paths below the folder, so the
    [ValueError] of its definition is never raised there. *)
Lemma run_calls_raises_OSError (folder_path : path) (calls : list call) :
  forall zf e zf',
    run_calls folder_path calls zf = (Raise e, zf') ->
    exists code filename, e = OSError code filename.
Proof.
  unfold run_calls.
  induction calls as [|[arc o] calls IH]; intros zf e zf';
    cbn [for_loop]; [discriminate|].
  unfold bind, write_entry at 1. cbn [fst snd].
  destruct o as [[d|es|]|]; try apply IH; intros [= <- _]; now eexists _, _.
Qed.

Lemma zip_body_raises_OSError (folder_path output_zip : path)
      (w w' : world) (e : exn) :
  zip_body folder_path output_zip w = (Raise e, w') ->
  exists code filename, e = OSError code filename.
Proof.
  rewrite zip_body_eq.
  destruct (write_file (fs w) output_zip (Raw "")) as [code|t1];
    [intros [= <- _]; now eexists _, _|].
  destruct (write_file t1 output_zip _) as [code|t2];
    [intros [= <- _]; now eexists _, _|].
  destruct (write_tree t1 folder_path []) as [r zf] eqn:E. cbn [fst].
  destruct r; [discriminate|]. intros [= <- _].
  unfold write_tree in E.
  destruct (stat t1 folder_path) as [n|] eqn:Hs; [|discriminate].
  assert (write_tree t1 folder_path [] = (Raise e0, zf)) as E'
      by (unfold write_tree; now rewrite Hs).
  rewrite (write_tree_calls _ _ _ _ Hs) in E'.
  exact (run_calls_raises_OSError _ _ _ _ _ E').
Qed.

(** ** Well-formed trees *)

Lemma nodup_names_NoDup (l : list string) : nodup_names l = true -> NoDup l.
Proof.
  induction l as [|x l IH]; simpl; [constructor|].
  intros H. apply andb_prop in H as [H1 H2]. constructor; [|now apply IH].
  intros Hin. apply negb_true_iff in H1.
  assert (existsb (String.eqb x) l = true) as K; [|congruence].
  apply existsb_exists. exists x. split; [exact Hin|apply String.eqb_refl].
Qed.

Lemma well_formed_Dir (es : listing) :
  well_formed (Dir es) = true ->
  NoDup (map fst es) /\ forall k c, In (k, c) es -> well_formed c = true.
Proof.
  simpl. intros H. apply andb_prop in H as [H1 H2]. split.
  - now apply nodup_names_NoDup.
  - intros k c Hin. rewrite forallb_forall in H2. exact (H2 _ Hin).
Qed.

Lemma NoDup_assoc (A : Type) (k : string) (v : A) (l : list (string * A)) :
  NoDup (map fst l) -> In (k, v) l -> assoc k l = Some v.
Proof.
  induction l as [|[k' v'] l IH]; simpl; [easy|].
  intros Hnd [E|Hin]; inversion_clear Hnd as [|? ? Hk Hl].
  - injection E as -> ->. now rewrite String.eqb_refl.
  - destruct (String.eqb_spec k k') as [->|]; [|now apply IH].
    exfalso. apply Hk. apply in_map_iff. now exists (k', v).
Qed.

Lemma well_formed_stat (t : node) (p : path) (n : node) :
  well_formed t = true -> stat t p = Some n -> well_formed n = true.
Proof.
  revert t; induction p as [|c p IH]; intros t Hw; simpl.
  - now intros [= <-].
  - destruct t as [|es|]; try discriminate.
    destruct (assoc c es) as [m|] eqn:E; [|discriminate].
    apply IH. apply well_formed_Dir in Hw as [_ Hw].
    eapply Hw, assoc_In, E.
Qed.

Lemma nondir_names_assoc (es : listing) (f : string) :
  NoDup (map fst es) -> In f (nondir_names es) ->
  exists c, assoc f es = Some c /\ is_dir_node c = false /\ In (f, c) es.
Proof.
  unfold nondir_names. intros Hnd Hin. apply in_map_iff in Hin.
  destruct Hin as ([k c] & <- & Hin). apply filter_In in Hin as [Hin Hc].
  exists c. simpl in *. repeat split; trivial.
  - now apply NoDup_assoc.
  - now apply negb_true_iff.
Qed.


(** In a well-formed tree every call finds a regular file or a socket. *)
Lemma write_calls_nondir (n : node) :
  well_formed n = true ->
  forall rel c, In c (write_calls n rel) ->
  exists x, snd c = Some x /\ is_dir_node x = false.
Proof.
  induction n as [d| |es IH] using node_induction; intros Hw rel c;
    try (simpl; tauto).
  apply well_formed_Dir in Hw as [Hnd Hw].
  rewrite write_calls_Dir, in_app_iff, in_map_iff, in_flat_map.
  intros [(f & <- & Hf)|(dn & Hd & Hin)].
  - apply (proj1 (sort_str_In _ _)) in Hf.
    destruct (nondir_names_assoc _ _ Hnd Hf) as (x & E & Hx & _).
    exists x. now split.
  - destruct (assoc dn es) as [x|] eqn:E; [|easy].
    apply assoc_In in E. rewrite Forall_forall in IH.
    exact (IH _ E (Hw _ _ E) _ _ Hin).
Qed.

Lemma members_of_calls_stored (calls : list call) :
  calls_ok calls = true ->
  (forall c, In c calls -> exists x, snd c = Some x /\ is_dir_node x = false) ->
  map stored (members_of_calls calls) = call_files calls /\
  Forall (fun m => is_dir_entry m = false /\ compress_type m = ZIP_STORED)
         (members_of_calls calls).
Proof.
  unfold call_files.
  induction calls as [|[arc o] calls IH]; simpl; intros Hok Hnd.
  - split; [reflexivity|constructor].
  - apply andb_prop in Hok as [Hc Hok].
    destruct (Hnd (arc, o) (or_introl eq_refl)) as (x & E & Hx).
    simpl in E. subst o. unfold member_of_call in *. simpl in *.
    destruct x as [d| |]; try discriminate.
    destruct (IH Hok) as [IH1 IH2]; [intros c Hin; apply Hnd; now right|].
    simpl. rewrite IH1. split; [reflexivity|]. constructor; [now split|exact IH2].
Qed.

(** ** The files of a tree *)

Lemma flat_map_ext_in (A B : Type) (f g : A -> list B) (l : list A) :
  (forall x, In x l -> f x = g x) -> flat_map f l = flat_map g l.
Proof.
  induction l as [|x l IH]; intros H; simpl; [reflexivity|].
  rewrite H by now left. f_equal. apply IH. intros y Hy. apply H. now right.
Qed.

Lemma flat_map_perm_in (A B : Type) (f g : A -> list B) (l : list A) :
  (forall x, In x l -> Permutation (f x) (g x)) ->
  Permutation (flat_map f l) (flat_map g l).
Proof.
  induction l as [|x l IH]; intros H; simpl; [reflexivity|].
  apply Permutation_app; [apply H; now left|].
  apply IH. intros y Hy. apply H. now right.
Qed.

Lemma flat_map_partition (A B : Type) (p : A -> bool) (f : A -> list B) (l : list A) :
  Permutation (flat_map f l)
    (flat_map f (filter (fun x => negb (p x)) l) ++ flat_map f (filter p l)).
Proof.
  induction l as [|x l IH]; simpl; [reflexivity|].
  destruct (p x); simpl.
  - rewrite IH. rewrite !app_assoc. apply Permutation_app_tail.
    apply Permutation_app_comm.
  - rewrite <- app_assoc. now apply Permutation_app_head.
Qed.

Lemma flat_map_flat_map (A B C : Type) (f : B -> list C) (g : A -> list B) (l : list A) :
  flat_map f (flat_map g l) = flat_map (fun x => flat_map f (g x)) l.
Proof.
  induction l as [|x l IH]; simpl; [reflexivity|].
  now rewrite flat_map_app, IH.
Qed.

Lemma flat_map_of_map (A B C : Type) (f : B -> list C) (g : A -> B) (l : list A) :
  flat_map f (map g l) = flat_map (fun x => f (g x)) l.
Proof. induction l as [|x l IH]; simpl; [reflexivity|now rewrite IH]. Qed.

(** The calls of a well-formed tree cover its regular files, each once. *)
Lemma write_calls_regular_files (n : node) :
  well_formed n = true ->
  forall rel, Permutation (call_files (write_calls n rel)) (regular_files n rel).
Proof.
  induction n as [d| |es IH] using node_induction; intros Hw rel;
    try reflexivity.
  apply well_formed_Dir in Hw as [Hnd Hw].
  rewrite write_calls_Dir. unfold call_files.
  rewrite flat_map_app, flat_map_of_map, flat_map_flat_map.
  cbn [regular_files].
  rewrite (flat_map_partition _ _ (fun e => is_dir_node (snd e)) _ es).
  apply Permutation_app.
  - rewrite (Permutation_flat_map _ (sort_str_perm _)).
    unfold nondir_names. rewrite flat_map_of_map.
    erewrite flat_map_ext_in; [reflexivity|].
    intros [k c] Hin. apply filter_In in Hin as [Hin Hc]. simpl in *.
    rewrite (NoDup_assoc _ _ _ _ Hnd Hin).
    now destruct c.
  - rewrite (Permutation_flat_map _ (sort_str_perm _)).
    unfold dir_names. rewrite flat_map_of_map.
    apply flat_map_perm_in.
    intros [k c] Hin. apply filter_In in Hin as [Hin Hc]. simpl in *.
    rewrite (NoDup_assoc _ _ _ _ Hnd Hin).
    rewrite Forall_forall in IH.
    destruct c as [|es'|]; try discriminate.
    exact (IH _ Hin (Hw _ _ Hin) _).
Qed.

(** ** A successful archiving step *)

Lemma path_split_last (p : path) : p <> [] -> p = parent p // name_of p.
Proof. intros H. now apply app_removelast_last. Qed.

Lemma name_of_nonempty (p : path) : name_of p <> "" -> p <> [].
Proof. intros H ->. now apply H. Qed.

Lemma string_app_length (a b : string) :
  String.length (a ++ b) = (String.length a + String.length b)%nat.
Proof. induction a; simpl; congruence. Qed.

(** Nothing at or below the folder is an initial segment of the archive's
    path. *)
Lemma archive_path_not_below (folder q : path) :
  name_of folder <> "" -> ~ is_prefix (folder ++ q) (archive_path folder).
Proof.
  intros Hn [r E]. unfold archive_path in E.
  pose proof (path_split_last folder (name_of_nonempty _ Hn)) as Hf.
  remember (parent folder) as pa. remember (name_of folder) as nm.
  rewrite Hf in E. unfold joinpath in E.
  rewrite <- !app_assoc in E. apply app_inv_head in E.
  simpl in E. injection E as E _.
  apply (f_equal String.length) in E. rewrite string_app_length in E.
  simpl in E. lia.
Qed.

Lemma is_valid_is_dir (t : node) (folder : path) :
  is_valid_bootanimation_folder t folder = true ->
  exists es, stat t folder = Some (Dir es).
Proof.
  rewrite is_valid_entries. unfold listing_at.
  destruct (stat t folder) as [[d|es|]|]; try discriminate.
  intros _. now exists es.
Qed.

Lemma write_tree_members (t : node) (folder : path) (n : node) :
  stat t folder = Some n ->
  snd (write_tree t folder []) = members_of_calls (write_calls n []) /\
  (fst (write_tree t folder []) = Ok tt <-> calls_ok (write_calls n []) = true).
Proof.
  intros Hs. rewrite (write_tree_calls _ _ _ _ Hs).
  exact (run_calls_eq folder (write_calls n []) []).
Qed.

(** The archiving step on a folder whose tree is [n]: it fails when the
    archive cannot be opened for writing; otherwise it leaves, at the
    archive's path, the members written up to the first failing call, and
    returns whether every call succeeded. *)
Lemma zip_folder_store_only_tree (folder out : path) (w : world) (n : node) :
  stat (fs w) folder = Some n ->
  ~ is_prefix folder out ->
  match write_file (fs w) out (Raw "") with
  | inl _ =>
      exists w', zip_folder_store_only folder out w = (Ok false, w') /\
                 fs w' = fs w
  | inr t1 =>
      exists t2 w',
        write_file t1 out (Archive (members_of_calls (write_calls n []))) =
          inr t2 /\
        zip_folder_store_only folder out w =
          (Ok (calls_ok (write_calls n [])), w') /\
        fs w' = t2
  end.
Proof.
  intros Hs Hp. rewrite zip_folder_store_only_eq, zip_body_eq.
  destruct (write_file (fs w) out (Raw "")) as [code|t1] eqn:E1.
  - eexists. split; reflexivity.
  - assert (stat t1 folder = Some n) as Hs1
        by now rewrite (write_file_frame _ _ _ _ _ E1 Hp).
    destruct (write_tree_members _ _ _ Hs1) as [Em Eo]. rewrite Em.
    destruct (write_file_again _ _ _ _
                (Archive (members_of_calls (write_calls n []))) E1)
      as [t2 E2].
    rewrite E2. exists t2.
    destruct (fst (write_tree t1 folder [])) as [[]|e].
    + eexists. rewrite (proj1 Eo eq_refl). now repeat split.
    + destruct (calls_ok (write_calls n [])).
      * now discriminate (proj2 Eo eq_refl).
      * eexists. now repeat split.
Qed.

(** When the loop body counts a folder as successful, the folder was valid,
    every call succeeded, the archive holds the members of those calls, and
    nothing else in the tree changed. *)
Lemma process_folder_success (w w' : world) (folder : path) (s f : Z) :
  pattern_match (name_of folder) <> None ->
  process_folder folder (s, f) w = (Ok (s + 1, f), w') ->
  exists n,
    is_valid_bootanimation_folder (fs w) folder = true /\
    stat (fs w) folder = Some n /\
    calls_ok (write_calls n []) = true /\
    stat (fs w') (archive_path folder) =
      Some (File (Archive (members_of_calls (write_calls n [])))) /\
    (forall p, ~ is_prefix p (archive_path folder) ->
               stat (fs w') p = stat (fs w) p).
Proof.
  intros Hm.
  destruct (is_valid_bootanimation_folder (fs w) folder) eqn:Hv.
  2:{ rewrite (process_folder_skipped _ _ s f Hv). intros [= E]. lia. }
  rewrite (process_folder_valid _ _ s f Hv Hm). cbv zeta.
  set (w1 := add_line w (fs w) _).
  destruct (is_valid_is_dir _ _ Hv) as [es Hs].
  assert (name_of folder <> "") as Hn by now apply pattern_match_no_dot.
  assert (~ is_prefix folder (archive_path folder)) as Hp.
  { rewrite <- (app_nil_r folder) at 1. now apply archive_path_not_below. }
  pose proof (zip_folder_store_only_tree folder (archive_path folder) w1
                (Dir es) Hs Hp) as Hz.
  change (fs w1) with (fs w) in Hz.
  destruct (write_file (fs w) (archive_path folder) (Raw "")) as [code|t1] eqn:E1.
  - destruct Hz as (w2 & -> & _). intros [= E]. lia.
  - destruct Hz as (t2 & w2 & E2 & -> & Ew).
    destruct (calls_ok (write_calls (Dir es) [])) eqn:Ec.
    2:{ intros [= E]. lia. }
    intros [= <-]. exists (Dir es). unfold add_line. simpl fs. subst t2.
    repeat split; trivial.
    + eapply write_file_stat. exact E2.
    + intros p Hp'.
      rewrite (write_file_frame _ _ _ _ _ E2 Hp').
      exact (write_file_frame _ _ _ _ _ E1 Hp').
Qed.

(** ** C1 *)




(** ** What an archiving step leaves unchanged *)

Lemma writable_child (t : node) (d : path) (z : string) :
  writable t (d // z) = true <->
  path_is_dir t d = true /\
  (stat t (d // z) = None \/ exists x, stat t (d // z) = Some (File x)).
Proof.
  unfold writable, path_is_dir, joinpath. revert t.
  induction d as [|c d IH]; intros t.
  - simpl. destruct t as [x|es|]; simpl; try (split; [discriminate|easy]).
    destruct (assoc z es) as [[x|es'|]|]; simpl; split; try easy;
      try (intros [_ [H|[y H]]]; discriminate).
    + intros _. split; [reflexivity|]. right. now exists x.
    + intros _. split; [reflexivity|]. now left.
  - simpl. destruct t as [x|es|]; simpl; try (split; [discriminate|easy]).
    destruct (assoc c es) as [m|] eqn:E.
    + specialize (IH m).
      destruct (write_file m (d ++ [z]) (Raw "")) as [code|m'].
      * split; [discriminate|]. intros H. now apply IH in H.
      * split; [intros _|reflexivity]. now apply IH.
    + destruct (d ++ [z]) eqn:Ed; [now destruct d|].
      split; [discriminate|easy].
Qed.

Lemma write_file_writable (t t' : node) (p : path) (c : content) :
  write_file t p c = inr t' -> writable t p = true /\ writable t' p = true.
Proof.
  intros H. unfold writable.
  assert (forall n n' c c', write_file n p c = inr n' ->
                            exists n'', write_file n p c' = inr n'') as K.
  { clear. induction p as [|name p IH]; intros n n' c c'; simpl.
    - destruct n; intros [= <-]; now eexists.
    - destruct n as [|es|]; try discriminate.
      destruct (assoc name es) as [m|].
      + destruct (write_file m p c) as [|m'] eqn:Em; [discriminate|].
        intros _. destruct (IH _ _ _ c' Em) as [m'' ->]. now eexists.
      + destruct p; [|discriminate]. intros _. now eexists. }
  destruct (K _ _ _ (Raw "") H) as [t1 ->].
  destruct (write_file_again _ _ _ _ (Raw "") H) as [t2 ->]. now split.
Qed.

Lemma child_prefix_inv (d q : path) (x z : string) :
  is_prefix (d // x ++ q) (d // z) -> x = z.
Proof.
  intros [r E]. unfold joinpath in E. rewrite <- !app_assoc in E.
  apply app_inv_head in E. simpl in E. now injection E.
Qed.

(** Writing one child of a directory changes neither whether another child
    can be written nor anything below a child of another name. *)
Lemma write_file_sibling (t t' : node) (d : path) (z : string) (c : content) :
  write_file t (d // z) c = inr t' ->
  (forall y, writable t' (d // y) = writable t (d // y)) /\
  (forall x q, x <> z -> stat t' (d // x ++ q) = stat t (d // x ++ q)).
Proof.
  intros H.
  assert (forall x q, x <> z -> stat t' (d // x ++ q) = stat t (d // x ++ q))
    as Hfr.
  { intros x q Hx. apply (write_file_frame _ _ _ _ _ H).
    intros Hp. now apply child_prefix_inv in Hp. }
  split; [|exact Hfr]. intros y.
  destruct (write_file_writable _ _ _ _ H) as [W W'].
  destruct (String.eqb_spec y z) as [->|Hy]; [congruence|].
  pose proof (Hfr y [] Hy) as Hs. rewrite !app_nil_r in Hs.
  apply (proj1 (writable_child _ _ _)) in W as [Wd _].
  apply (proj1 (writable_child _ _ _)) in W' as [Wd' _].
  destruct (writable t (d // y)) eqn:E.
  - apply writable_child. apply writable_child in E as [_ E].
    rewrite Hs. now split.
  - destruct (writable t' (d // y)) eqn:E'; [|reflexivity].
    apply writable_child in E' as [_ E']. rewrite Hs in E'.
    rewrite <- E. symmetry. apply writable_child. now split.
Qed.

Lemma archiving_step_result (w : world) (folder : path) (n : node) :
  name_of folder <> "" ->
  stat (fs w) folder = Some n ->
  fst (zip_folder_store_only folder (archive_path folder) w) =
  Ok (writable (fs w) (archive_path folder) && calls_ok (write_calls n [])).
Proof.
  intros Hn Hs.
  assert (~ is_prefix folder (archive_path folder)) as Hp.
  { rewrite <- (app_nil_r folder) at 1. now apply archive_path_not_below. }
  pose proof (zip_folder_store_only_tree folder (archive_path folder) w n Hs Hp)
    as Hz.
  unfold writable.
  destruct (write_file (fs w) (archive_path folder) (Raw "")).
  - destruct Hz as (w' & -> & _). reflexivity.
  - destruct Hz as (t2 & w' & _ & -> & _). reflexivity.
Qed.

(** What the loop body returns, and what it does to the tree. *)
Lemma process_folder_outcome (w : world) (folder : path) (s f : Z) :
  pattern_match (name_of folder) <> None ->
  exists w',
    process_folder folder (s, f) w =
      (Ok (if succeeds (fs w) folder then (s + 1, f) else (s, f + 1)), w') /\
    cwd w' = cwd w /\
    (fs w' = fs w \/
     exists t1 c,
       write_file (fs w) (archive_path folder) (Raw "") = inr t1 /\
       write_file t1 (archive_path folder) c = inr (fs w')).
Proof.
  intros Hm. unfold succeeds.
  destruct (is_valid_bootanimation_folder (fs w) folder) eqn:Hv.
  2:{ rewrite (process_folder_skipped _ _ s f Hv). eexists.
      split; [reflexivity|]. split; [reflexivity|]. now left. }
  rewrite (process_folder_valid _ _ s f Hv Hm). cbv zeta.
  set (w1 := add_line w (fs w) _).
  destruct (is_valid_is_dir _ _ Hv) as [es Hs].
  assert (name_of folder <> "") as Hn by now apply pattern_match_no_dot.
  assert (~ is_prefix folder (archive_path folder)) as Hp.
  { rewrite <- (app_nil_r folder) at 1. now apply archive_path_not_below. }
  unfold archiving_result.
  rewrite (archiving_step_result (World [] (fs w) []) folder (Dir es) Hn Hs).
  pose proof (zip_folder_store_only_tree folder (archive_path folder) w1
                (Dir es) Hs Hp) as Hz.
  change (fs w1) with (fs w) in Hz. cbn [fs]. unfold writable.
  destruct (zip_folder_store_only_returns folder (archive_path folder) w1)
    as (b & w2 & Ez & Hc).
  destruct (write_file (fs w) (archive_path folder) (Raw "")) as [code|t1] eqn:E1.
  - destruct Hz as (w2' & Ez' & Ew). rewrite Ez'. rewrite Ez' in Ez.
    injection Ez as <- <-. eexists. split; [reflexivity|].
    split; [exact Hc|]. left. exact Ew.
  - destruct Hz as (t2 & w2' & E2 & Ez' & Ew). rewrite Ez'. rewrite Ez' in Ez.
    injection Ez as <- <-. subst t2. cbn [andb].
    destruct (calls_ok (write_calls (Dir es) [])).
    + eexists. split; [reflexivity|]. split; [exact Hc|].
      right. now exists t1, (Archive (members_of_calls (write_calls (Dir es) []))).
    + eexists. split; [reflexivity|]. split; [exact Hc|].
      right. now exists t1, (Archive (members_of_calls (write_calls (Dir es) []))).
Qed.

Lemma rfind_dot_app_r (a b : string) :
  rfind_dot b <> None -> rfind_dot (a ++ b) <> None.
Proof.
  intros H. induction a as [|c a IH]; simpl; [exact H|].
  destruct (rfind_dot (a ++ b)); [discriminate|contradiction].
Qed.

Lemma unchanged_for_refl (d : path) (t : node) : unchanged_for d t t.
Proof. now split. Qed.

Lemma unchanged_for_write (d : path) (t0 t t' : node) (name : string)
      (c : content) :
  unchanged_for d t0 t ->
  write_file t (d // (name ++ ".zip")) c = inr t' ->
  unchanged_for d t0 t'.
Proof.
  intros [H1 H2] Hw. apply write_file_sibling in Hw as [W1 W2]. split.
  - intros y. now rewrite W1.
  - intros x q Hx. rewrite W2; [now apply H2|].
    intros ->. revert Hx. now apply rfind_dot_app_r.
Qed.

Lemma succeeds_unchanged (d : path) (t0 t : node) (name : string) :
  unchanged_for d t0 t ->
  pattern_match name <> None ->
  succeeds t (d // name) = succeeds t0 (d // name).
Proof.
  intros [H1 H2] Hm. apply pattern_match_no_dot in Hm as [Hd Hn].
  assert (forall q, stat t (d // name ++ q) = stat t0 (d // name ++ q)) as Hs
      by (intros q; now apply H2).
  assert (is_valid_bootanimation_folder t (d // name) =
          is_valid_bootanimation_folder t0 (d // name)) as Hv.
  { rewrite !is_valid_entries, <- !stat_child_listing.
    unfold joinpath at 1 3 5 7. now rewrite !Hs. }
  unfold succeeds. rewrite Hv.
  destruct (is_valid_bootanimation_folder t0 (d // name)) eqn:Hv0;
    [|reflexivity].
  destruct (is_valid_is_dir _ _ Hv0) as [es Hs0].
  assert (stat t (d // name) = Some (Dir es)) as Hst.
  { specialize (Hs []). rewrite !app_nil_r in Hs. congruence. }
  unfold archiving_result.
  rewrite (archiving_step_result (World [] t []) (d // name) (Dir es)),
          (archiving_step_result (World [] t0 []) (d // name) (Dir es));
    trivial; try now rewrite name_of_child.
  cbn [fs]. unfold archive_path. rewrite parent_child, name_of_child.
  now rewrite H1.
Qed.

(** ** Counting outcomes *)

Lemma count_cons (A : Type) (p : A -> bool) (x : A) (l : list A) :
  count p (x :: l) = (if p x then 1 else 0) + count p l.
Proof.
  unfold count. simpl. destruct (p x); [|reflexivity].
  cbn [List.length]. lia.
Qed.

Lemma count_split (A : Type) (p : A -> bool) (l : list A) :
  count p l + count (fun x => negb (p x)) l = Z.of_nat (List.length l).
Proof.
  induction l as [|x l IH]; [reflexivity|].
  rewrite !count_cons. cbn [List.length]. destruct (p x); simpl negb; lia.
Qed.

Lemma count_pos (A : Type) (p : A -> bool) (l : list A) :
  0 < count p l <-> exists x, In x l /\ p x = true.
Proof.
  induction l as [|x l IH].
  - split; [unfold count; simpl; lia|now intros (x & [] & _)].
  - rewrite count_cons. split.
    + destruct (p x) eqn:E.
      * intros _. exists x. split; [now left|exact E].
      * intros H. apply IH in H as (y & Hy & Hp). exists y. split; [now right|exact Hp].
    + intros (y & [<-|Hy] & Hp).
      * rewrite Hp. unfold count. lia.
      * assert (0 < count p l) by (apply IH; now exists y).
        destruct (p x); lia.
Qed.

(** The loop counts each folder by its outcome in the tree it started
    from. *)
Lemma for_loop_counts (d : path) (t0 : node) (folders : list path) :
  Forall (fun p => exists name, p = d // name /\ pattern_match name <> None)
         folders ->
  forall w s f,
    unchanged_for d t0 (fs w) ->
    exists w',
      for_loop folders process_folder (s, f) w =
        (Ok (s + count (succeeds t0) folders,
             f + count (fun p => negb (succeeds t0 p)) folders), w') /\
      cwd w' = cwd w /\
      unchanged_for d t0 (fs w').
Proof.
  induction 1 as [|folder folders (name & -> & Hm) _ IH]; intros w s f Hu;
    cbn [for_loop].
  - exists w. unfold ret, count. simpl. rewrite !Z.add_0_r.
    split; [reflexivity|]. split; [reflexivity|exact Hu].
  - assert (pattern_match (name_of (d // name)) <> None) as Hm'
        by now rewrite name_of_child.
    destruct (process_folder_outcome w (d // name) s f Hm')
      as (w1 & E & Hc & Ht).
    unfold bind. rewrite E. rewrite (succeeds_unchanged _ _ _ _ Hu Hm).
    assert (unchanged_for d t0 (fs w1)) as Hu1.
    { destruct Ht as [->|(t1 & c & E1 & E2)]; [exact Hu|].
      unfold archive_path in E1, E2. rewrite parent_child, name_of_child in *.
      eapply unchanged_for_write; [|exact E2].
      eapply unchanged_for_write; [exact Hu|exact E1]. }
    rewrite !count_cons.
    destruct (succeeds t0 (d // name)); cbn [negb].
    + destruct (IH w1 (s + 1) f Hu1) as (w' & E' & Hc' & Hu').
      exists w'. rewrite E'. split; [|split; [congruence|exact Hu']].
      do 3 f_equal; lia.
    + destruct (IH w1 s (f + 1) Hu1) as (w' & E' & Hc' & Hu').
      exists w'. rewrite E'. split; [|split; [congruence|exact Hu']].
      do 3 f_equal; lia.
Qed.

Lemma discovered_children (t : node) (directory : path) (folders : list path) :
  find_bootanimation_folders t directory = Ok folders ->
  Forall (fun p => exists name,
              p = directory // name /\ pattern_match name <> None) folders.
Proof.
  intros Hf. apply Forall_forall. intros p Hp.
  apply (find_bootanimation_folders_In _ _ _ p Hf) in Hp
    as (name & -> & _ & _ & H).
  now exists name.
Qed.

(** ** Processing a directory *)

Lemma process_directory_eq (w : world) (directory : path) (folders : list path) :
  find_bootanimation_folders (fs w) directory = Ok folders ->
  process_directory directory w =
  let w0 := add_line
              (add_line w (fs w)
                 ("Searching for bootanimation folders in: " ++
                  str_path directory))
              (fs w) (repeat_str "-" 60) in
  match folders with
  | [] => (Ok (0, 0), add_line w0 (fs w) "No bootanimation folders found.")
  | _ =>
      for_loop folders process_folder (0, 0)
        (add_line w0 (fs w)
           ("Found " ++ str_int (Z.of_nat (List.length folders)) ++
            " bootanimation folder(s):" ++ String newline ""))
  end.
Proof.
  intros Hf. unfold process_directory, bind, print, get_fs, lift, ret.
  cbn [fs cwd stdout]. rewrite Hf. now destruct folders.
Qed.

Lemma process_directory_result (w : world) (directory : path)
      (folders : list path) :
  find_bootanimation_folders (fs w) directory = Ok folders ->
  exists w',
    process_directory directory w =
      (Ok (count (succeeds (fs w)) folders,
           count (fun p => negb (succeeds (fs w) p)) folders), w') /\
    cwd w' = cwd w.
Proof.
  intros Hf. rewrite (process_directory_eq _ _ _ Hf). cbv zeta.
  destruct folders as [|p l] eqn:E.
  - eexists. split; reflexivity.
  - rewrite <- E in *. clear E.
    match goal with
    | |- context [for_loop folders process_folder (0, 0) ?w1] =>
        destruct (for_loop_counts directory (fs w) folders
                    (discovered_children _ _ _ Hf) w1 0 0
                    (unchanged_for_refl _ _))
          as (w' & E' & Hc & _)
    end.
    exists w'. rewrite E'. split; [now rewrite !Z.add_0_l|exact Hc].
Qed.

Lemma succeeds_false (t : node) (folder : path) :
  succeeds t folder = false <->
  is_valid_bootanimation_folder t folder = false \/
  archiving_result t folder = Ok false.
Proof.
  unfold succeeds, archiving_result.
  destruct (zip_folder_store_only_returns folder (archive_path folder)
              (World [] t [])) as (b & w' & -> & _). simpl fst.
  destruct (is_valid_bootanimation_folder t folder), b; simpl;
    split; try tauto; try discriminate; intros [H|H]; discriminate.
Qed.

(** C8: on an input directory, processing returns a pair
    [(successful, failed)] whose sum is the number of discovered folders;
    [successful] counts the folders that are valid and archived, [failed]
    counts all the others, the invalid (skipped) ones among them. *)
Theorem process_directory_counts (w : world) (directory : path) :
  path_is_dir (fs w) directory = true ->
  exists folders successful failed w',
    find_bootanimation_folders (fs w) directory = Ok folders /\
    process_directory directory w = (Ok (successful, failed), w') /\
    successful + failed = Z.of_nat (List.length folders) /\
    successful = count (succeeds (fs w)) folders /\
    failed = count (fun p => negb (succeeds (fs w) p)) folders /\
    (forall p, is_valid_bootanimation_folder (fs w) p = false ->
               succeeds (fs w) p = false).
Proof.
  intros Hd.
  destruct (find_bootanimation_folders_ok _ _ Hd) as [folders Hf].
  destruct (process_directory_result _ _ _ Hf) as (w' & E & _).
  exists folders, (count (succeeds (fs w)) folders),
    (count (fun p => negb (succeeds (fs w) p)) folders), w'.
  repeat split; trivial.
  - apply count_split.
  - intros p Hp. apply succeeds_false. now left.
Qed.

Lemma process_directory_counts_witness :
  exists folders successful failed w',
    find_bootanimation_folders sample_tree ["in"] = Ok folders /\
    process_directory ["in"] sample_world = (Ok (successful, failed), w') /\
    successful + failed = Z.of_nat (List.length folders).
Proof.
  destruct (process_directory_counts sample_world ["in"] eq_refl)
    as (folders & s & f & w' & H1 & H2 & H3 & _).
  exists folders, s, f, w'. split; [exact H1|]. split; [exact H2|exact H3].
Defined.

(** ** Failure modes of one folder *)





(** ** The exit status *)

Lemma path_is_dir_exists (t : node) (p : path) :
  path_is_dir t p = true -> path_exists t p = true.
Proof. unfold path_is_dir, path_exists. now destruct (stat t p). Qed.

Lemma main_no_argument (argv : list string) (w : world) :
  (List.length argv < 2)%nat ->
  main argv w =
  (Raise (SystemExit 1),
   World (cwd w) (fs w)
     (((stdout w ++
        ["Usage: python zip_bootanimation.py <path_to_directory>"]) ++
       [String newline
          "The directory should contain bootanimation folders to zip."]) ++
      ["Each folder must have 'part0/' and 'desc.txt' to be processed."])).
Proof.
  destruct argv as [|a0 [|arg1 rest]]; simpl; try lia; reflexivity.
Qed.

Lemma main_not_a_directory (a0 arg1 : string) (rest : list string) (w : world) :
  path_is_dir (fs w) (resolve (cwd w) arg1) = false ->
  fst (main (a0 :: arg1 :: rest) w) = Raise (SystemExit 1).
Proof.
  intros Hd. unfold main, bind. cbn [fst snd].
  destruct (path_exists (fs w) (resolve (cwd w) arg1)); cbn [negb].
  - rewrite Hd. reflexivity.
  - reflexivity.
Qed.

Lemma main_directory (a0 arg1 : string) (rest : list string) (w w1 : world)
      (s f : Z) :
  path_is_dir (fs w) (resolve (cwd w) arg1) = true ->
  process_directory (resolve (cwd w) arg1) w = (Ok (s, f), w1) ->
  fst (main (a0 :: arg1 :: rest) w) =
  if 0 <? f then Raise (SystemExit 1) else Ok tt.
Proof.
  intros Hd Hp. unfold main, bind. cbn [fst snd].
  rewrite (path_is_dir_exists _ _ Hd), Hd. cbn [negb]. rewrite Hp.
  unfold print, sys_exit, raise, ret. now destruct (0 <? f).
Qed.

(** C6: without a directory argument the program prints the usage message
    and exits with status 1; when the given path does not exist or is not a
    directory it exits with status 1; and on a directory its status is
    nonzero exactly when some discovered folder is invalid (skipped) or
    makes the archiving step return [False]. *)
Theorem main_exit_status (argv : list string) (w : world) :
  ((List.length argv < 2)%nat ->
   exit_status argv w = 1 /\
   stdout (snd (main argv w)) =
     ((stdout w ++
       ["Usage: python zip_bootanimation.py <path_to_directory>"]) ++
      [String newline
         "The directory should contain bootanimation folders to zip."]) ++
     ["Each folder must have 'part0/' and 'desc.txt' to be processed."]) /\
  (forall a0 arg1 rest,
     argv = a0 :: arg1 :: rest ->
     let directory := resolve (cwd w) arg1 in
     (path_exists (fs w) directory = false \/
      path_is_dir (fs w) directory = false ->
      exit_status argv w = 1) /\
     (path_is_dir (fs w) directory = true ->
      exists folders,
        find_bootanimation_folders (fs w) directory = Ok folders /\
        (exit_status argv w <> 0 <->
         exists folder,
           In folder folders /\
           (is_valid_bootanimation_folder (fs w) folder = false \/
            archiving_result (fs w) folder = Ok false)))).
Proof.
  split.
  - intros Hl. unfold exit_status. rewrite (main_no_argument _ _ Hl).
    now split.
  - intros a0 arg1 rest -> directory. split.
    + intros H. unfold exit_status.
      rewrite main_not_a_directory; [reflexivity|].
      destruct H as [H|H]; [|exact H].
      destruct (path_is_dir (fs w) (resolve (cwd w) arg1)) eqn:E;
        [|reflexivity].
      apply path_is_dir_exists in E. fold directory in E. congruence.
    + intros Hd.
      destruct (find_bootanimation_folders_ok _ _ Hd) as [folders Hf].
      exists folders. split; [exact Hf|].
      destruct (process_directory_result _ _ _ Hf) as (w' & E & _).
      unfold exit_status. rewrite (main_directory _ _ _ _ _ _ _ Hd E).
      set (failed := count _ folders).
      assert (0 < failed <->
              exists folder,
                In folder folders /\
                (is_valid_bootanimation_folder (fs w) folder = false \/
                 archiving_result (fs w) folder = Ok false)) as K.
      { unfold failed. rewrite count_pos. split.
        - intros (p & Hp & Hs). exists p. split; [exact Hp|].
          apply succeeds_false. now apply negb_true_iff.
        - intros (p & Hp & Hs). exists p. split; [exact Hp|].
          apply negb_true_iff. now apply succeeds_false. }
      rewrite <- K. destruct (Z.ltb_spec 0 failed); split; intros; try lia;
        try discriminate; congruence.
Qed.

Lemma main_exit_status_witness :
  exit_status ["zip_bootanimation.py"] sample_world = 1 /\
  exit_status ["zip_bootanimation.py"; "/in/readme"] sample_world = 1 /\
  (exit_status ["zip_bootanimation.py"; "in"] sample_world <> 0 <->
   exists folder,
     In folder [["in"; "bootanimation"]; ["in"; "BootAnimation2"];
                ["in"; "bootanimation02"]; ["in"; "bootanimation10"]] /\
     (is_valid_bootanimation_folder sample_tree folder = false \/
      archiving_result sample_tree folder = Ok false)).
Proof.
  split; [|split].
  - apply (proj1 (main_exit_status ["zip_bootanimation.py"] sample_world)).
    simpl. lia.
  - apply (proj2 (main_exit_status ["zip_bootanimation.py"; "/in/readme"]
                    sample_world) _ _ _ eq_refl).
    right. reflexivity.
  - destruct (proj2 (proj2 (main_exit_status ["zip_bootanimation.py"; "in"]
                              sample_world) _ _ _ eq_refl) eq_refl)
      as (folders & Hf & H).
    injection Hf as <-. exact H.
Defined.

(** C9: when the input path is a directory none of whose subdirectories
    has a name that the pattern matches, processing returns [(0, 0)], the
    tree is left as it was, and the program exits with status 0. *)
Theorem no_folders_exit_zero
        (a0 arg1 : string) (rest : list string) (w : world) :
  let directory := resolve (cwd w) arg1 in
  path_is_dir (fs w) directory = true ->
  (forall name,
     In name (map fst (listing_at (fs w) directory)) ->
     path_is_dir (fs w) (directory // name) = true ->
     pattern_match name = None) ->
  exists w',
    process_directory directory w = (Ok (0, 0), w') /\
    fs w' = fs w /\
    exit_status (a0 :: arg1 :: rest) w = 0.
Proof.
  intros directory Hd Hn.
  destruct (find_bootanimation_folders_ok _ _ Hd) as [folders Hf].
  assert (folders = []) as ->.
  { destruct folders as [|p l]; [reflexivity|]. exfalso.
    destruct (proj1 (find_bootanimation_folders_In _ _ _ p Hf) (or_introl eq_refl))
      as (name & -> & Hin & Hdir & Hm).
    apply Hm. now apply Hn. }
  pose proof (process_directory_eq _ _ _ Hf) as E. cbv zeta in E.
  eexists. split; [exact E|]. split; [reflexivity|].
  unfold exit_status. now rewrite (main_directory _ _ _ _ _ _ _ Hd E).
Qed.

Lemma no_folders_exit_zero_witness :
  exists w',
    process_directory ["in"; "BootAnimation2"] sample_world = (Ok (0, 0), w') /\
    fs w' = sample_tree /\
    exit_status ["zip_bootanimation.py"; "/in/BootAnimation2"] sample_world = 0.
Proof.
  apply (no_folders_exit_zero "zip_bootanimation.py" "/in/BootAnimation2" []
                              sample_world).
  - reflexivity.
  - intros name [<-|[<-|[<-|[<-|[]]]]] _; reflexivity.
Defined.

(** ** The same tree gives the same archive *)

Lemma NoDup_filter_names (es : listing) (p : string * node -> bool) :
  NoDup (map fst es) -> NoDup (map fst (filter p es)).
Proof.
  induction es as [|[k c] es IH]; simpl; [trivial|].
  intros H. inversion_clear H as [|? ? Hk Hes].
  destruct (p (k, c)); simpl; [|now apply IH].
  constructor; [|now apply IH].
  intros Hin. apply Hk. apply in_map_iff in Hin as (e & <- & He).
  apply filter_In in He as [He _]. now apply in_map.
Qed.







(** ** The order of the members *)

Lemma StronglySorted_app (A : Type) (R : A -> A -> Prop) (l1 l2 : list A) :
  StronglySorted R l1 -> StronglySorted R l2 ->
  (forall a b, In a l1 -> In b l2 -> R a b) ->
  StronglySorted R (l1 ++ l2).
Proof.
  induction 1 as [|x l1 Hs IH Hx]; intros H2 H; simpl; [exact H2|].
  constructor.
  - apply IH; [exact H2|]. intros a b Ha Hb. apply H; [now right|exact Hb].
  - apply Forall_app. split; [exact Hx|].
    apply Forall_forall. intros b Hb. apply H; [now left|exact Hb].
Qed.

Lemma StronglySorted_flat_map (A B : Type) (Ra : A -> A -> Prop)
      (Rb : B -> B -> Prop) (g : A -> list B) (l : list A) :
  StronglySorted Ra l ->
  (forall x, In x l -> StronglySorted Rb (g x)) ->
  (forall x y a b, Ra x y -> In a (g x) -> In b (g y) -> Rb a b) ->
  StronglySorted Rb (flat_map g l).
Proof.
  induction 1 as [|x l Hs IH Hx]; intros Hg Hc; simpl; [constructor|].
  apply StronglySorted_app.
  - apply Hg. now left.
  - apply IH; [|exact Hc]. intros y Hy. apply Hg. now right.
  - intros a b Ha Hb. apply in_flat_map in Hb as (y & Hy & Hb).
    rewrite Forall_forall in Hx. exact (Hc x y a b (Hx y Hy) Ha Hb).
Qed.

Lemma StronglySorted_map (A B : Type) (Ra : A -> A -> Prop)
      (Rb : B -> B -> Prop) (g : A -> B) (l : list A) :
  (forall x y, Ra x y -> Rb (g x) (g y)) ->
  StronglySorted Ra l -> StronglySorted Rb (map g l).
Proof.
  intros H. induction 1 as [|x l Hs IH Hx]; simpl; constructor; [exact IH|].
  apply Forall_map. eapply Forall_impl; [|exact Hx]. intros y. apply H.
Qed.

Lemma string_lt_of_le (x y : string) :
  String.ltb y x = false -> x <> y -> String.ltb x y = true.
Proof.
  intros Hle Hne. destruct (String.ltb x y) eqn:E; [reflexivity|].
  exfalso. apply Hne. now apply string_le_antisym.
Qed.

(** Distinct names come out of [sort] in strictly ascending order. *)
Lemma sort_str_strict (l : list string) :
  NoDup l ->
  StronglySorted (fun x y => String.ltb x y = true) (sort_str l).
Proof.
  intros Hnd.
  assert (NoDup (sort_str l)) as Hnd'
      by (eapply Permutation_NoDup; [symmetry; apply sort_str_perm|exact Hnd]).
  pose proof (sort_str_sorted l) as Hs. revert Hnd'.
  induction Hs as [|x s Hs IH Hx]; intros Hnd'; constructor.
  - apply IH. now inversion Hnd'.
  - inversion_clear Hnd' as [|? ? Hin _]. apply Forall_forall.
    intros y Hy. rewrite Forall_forall in Hx.
    apply string_lt_of_le; [exact (Hx y Hy)|]. intros ->. contradiction.
Qed.

Lemma map_flat_map (A B C : Type) (f : B -> C) (g : A -> list B) (l : list A) :
  map f (flat_map g l) = flat_map (fun x => map f (g x)) l.
Proof.
  induction l as [|x l IH]; simpl; [reflexivity|]. now rewrite map_app, IH.
Qed.

(** The calls below [rel] are the calls below the folder, moved under
    [rel]. *)
Lemma write_calls_rel (n : node) :
  forall rel,
    write_calls n rel = map (fun c => (rel ++ fst c, snd c)) (write_calls n []).
Proof.
  induction n as [x| |es IH] using node_induction; intros rel;
    try reflexivity.
  rewrite !write_calls_Dir, map_app, map_map, map_flat_map. f_equal.
  apply flat_map_ext_in. intros d _.
  destruct (assoc d es) as [c|] eqn:E; [|reflexivity].
  rewrite Forall_forall in IH. pose proof (IH _ (assoc_In _ _ _ _ E)) as IHc.
  cbn [snd] in IHc. rewrite (IHc (rel // d)), (IHc ([] // d)), map_map.
  apply map_ext. intros [p o]. cbn [fst snd]. unfold joinpath.
  now rewrite <- app_assoc.
Qed.

Lemma write_calls_nonempty (n : node) (c : call) :
  In c (write_calls n []) -> fst c <> [].
Proof.
  destruct n as [x|es|]; try (simpl; tauto).
  rewrite write_calls_Dir, in_app_iff, in_map_iff, in_flat_map.
  intros [(f & <- & _)|(d & _ & Hin)]; [discriminate|].
  destruct (assoc d es) as [m|]; [|easy].
  rewrite write_calls_rel in Hin. apply in_map_iff in Hin as (c' & <- & _).
  discriminate.
Qed.

Lemma walk_before_cons (x y : string) (p q : path) :
  p <> [] -> q <> [] ->
  walk_before (x :: p) (y :: q) =
  String.ltb x y || (String.eqb x y && walk_before p q).
Proof. destruct p, q; try congruence. reflexivity. Qed.

Lemma walk_before_file (f d : string) (q : path) :
  q <> [] -> walk_before [f] (d :: q) = true.
Proof. destruct q; [congruence|reflexivity]. Qed.

(** The calls of a well-formed tree are made in the order of the walk. *)
Lemma write_calls_sorted (n : node) :
  well_formed n = true ->
  StronglySorted (fun p q => walk_before p q = true)
                 (map fst (write_calls n [])).
Proof.
  induction n as [x| |es IH] using node_induction; intros Hw;
    try constructor.
  apply well_formed_Dir in Hw as [Hnd Hw].
  rewrite write_calls_Dir, map_app, map_map, map_flat_map.
  apply StronglySorted_app.
  - cbn [fst]. eapply StronglySorted_map;
      [|apply sort_str_strict, NoDup_filter_names, Hnd].
    intros f g Hfg. exact Hfg.
  - eapply StronglySorted_flat_map;
      [apply sort_str_strict, NoDup_filter_names, Hnd| |].
    + intros d _. destruct (assoc d es) as [c|] eqn:E; [|constructor].
      apply assoc_In in E. rewrite Forall_forall in IH.
      rewrite write_calls_rel, map_map. cbn [fst].
      pose proof (IH _ E (Hw _ _ E)) as IHc. cbn [snd] in IHc.
      assert (Forall (fun c' => fst c' <> []) (write_calls c [])) as Hne
          by (apply Forall_forall; intros c'; apply write_calls_nonempty).
      revert IHc Hne. generalize (write_calls c []). intros calls.
      induction calls as [|c1 calls IHl]; intros Hs Hne; [constructor|].
      cbn [map] in *. inversion_clear Hs as [|? ? Hs' Hx].
      inversion_clear Hne as [|? ? Hc1 Hne'].
      constructor; [now apply IHl|].
      apply Forall_forall. intros q Hq.
      apply in_map_iff in Hq as (c2 & <- & Hc2).
      rewrite Forall_forall in Hx, Hne'.
      pose proof (Hx _ (in_map fst _ _ Hc2)) as H12.
      pose proof (Hne' _ Hc2) as Hc2'.
      unfold joinpath. cbn [app].
      rewrite walk_before_cons by assumption.
      rewrite String.eqb_refl. apply orb_true_iff. right. exact H12.
    + intros d e a b Hde Ha Hb.
      destruct (assoc d es) as [c|]; [|easy].
      destruct (assoc e es) as [c'|]; [|easy].
      apply in_map_iff in Ha as (ca & <- & Ha).
      apply in_map_iff in Hb as (cb & <- & Hb).
      rewrite write_calls_rel in Ha, Hb.
      apply in_map_iff in Ha as (ca' & <- & Ha).
      apply in_map_iff in Hb as (cb' & <- & Hb).
      apply write_calls_nonempty in Ha, Hb. cbn [fst].
      unfold joinpath. cbn [app].
      rewrite walk_before_cons by assumption. now rewrite Hde.
  - intros a b Ha Hb. apply in_map_iff in Ha as (f & <- & _).
    apply in_flat_map in Hb as (d & _ & Hb).
    destruct (assoc d es) as [c|]; [|easy].
    apply in_map_iff in Hb as (cb & <- & Hb).
    rewrite write_calls_rel in Hb.
    apply in_map_iff in Hb as (cb' & <- & Hb).
    apply write_calls_nonempty in Hb. cbn [fst].
    unfold joinpath. cbn [app]. now apply walk_before_file.
Qed.

Lemma members_of_calls_names (calls : list call) :
  calls_ok calls = true ->
  map arcname (members_of_calls calls) = map fst calls.
Proof.
  induction calls as [|[arc o] calls IH]; [reflexivity|].
  cbn [calls_ok forallb members_of_calls]. unfold member_of_call.
  cbn [fst snd]. intros H. apply andb_prop in H as [H1 H2].
  destruct o as [[| |]|]; try discriminate; cbn [map arcname fst];
    f_equal; now apply IH.
Qed.

(** ** C2 *)





(** * Further properties of the script *)

(** ** Discovery, exactly *)

(** X1: on names made of characters with codes 0..255, which are the names
    of the model, discovery returns exactly the children of the input
    directory that are directories and whose names are the literal
    bootanimation in any case followed by digits 0-9, or such a name
    followed by one line feed.  (On names with other characters the pattern
    of line 26 accepts more: any decimal digit, and the dotted capital and
    the dotless small i for the letter i.) *)
Theorem discovery_exact
        (t : node) (directory : path) (folders : list path) (p : path) :
  find_bootanimation_folders t directory = Ok folders ->
  In p folders <->
  exists name,
    p = directory // name /\
    In name (map fst (listing_at t directory)) /\
    path_is_dir t p = true /\
    (bootanimation_name name \/
     exists name', name = (name' ++ String newline "")%string /\
                   bootanimation_name name').
Proof.
  intros Hf. rewrite (find_bootanimation_folders_In _ _ _ p Hf).
  split; intros (name & H1 & H2 & H3 & H4); exists name;
    repeat split; trivial; now apply pattern_match_accepts.
Qed.

Lemma discovery_exact_witness :
  In ["in"; "BootAnimation2"]
     [["in"; "bootanimation"]; ["in"; "BootAnimation2"];
      ["in"; "bootanimation02"]; ["in"; "bootanimation10"]] <->
  exists name,
    ["in"; "BootAnimation2"] = ["in"] // name /\
    In name (map fst (listing_at sample_tree ["in"])) /\
    path_is_dir sample_tree ["in"; "BootAnimation2"] = true /\
    (bootanimation_name name \/
     exists name', name = (name' ++ String newline "")%string /\
                   bootanimation_name name').
Proof.
  apply (discovery_exact sample_tree ["in"]). reflexivity.
Defined.

(** ** Discovery keeps every candidate, and ties keep the listing order *)

Lemma insert_stable (A : Type) (key : A -> Z * Z) (k : Z * Z) (x : A) (l : list A) :
  filter (fun y => tuple_eqb (key y) k)
         (insert (fun a b => tuple_lt (key a) (key b)) x l) =
  filter (fun y => tuple_eqb (key y) k) (x :: l).
Proof.
  induction l as [|y l IH]; [reflexivity|].
  cbn [insert]. destruct (tuple_lt (key y) (key x)) eqn:E; [|reflexivity].
  cbn [filter] in *. rewrite IH.
  destruct (tuple_eqb (key x) k) eqn:Ex, (tuple_eqb (key y) k) eqn:Ey;
    try reflexivity.
  exfalso. unfold tuple_eqb, tuple_lt in *.
  destruct (key x) as [x1 x2], (key y) as [y1 y2], k as [k1 k2]. simpl in *.
  apply andb_prop in Ex as [Ex1 Ex2]. apply andb_prop in Ey as [Ey1 Ey2].
  apply Z.eqb_eq in Ex1, Ex2, Ey1, Ey2. subst.
  rewrite !Z.ltb_irrefl, Z.eqb_refl in E. discriminate.
Qed.

Lemma sorted_by_stable (A : Type) (key : A -> Z * Z) (k : Z * Z) (l : list A) :
  filter (fun y => tuple_eqb (key y) k) (sorted_by key l) =
  filter (fun y => tuple_eqb (key y) k) l.
Proof.
  unfold sorted_by. induction l as [|x l IH]; [reflexivity|].
  cbn [sorted]. rewrite insert_stable. cbn [filter]. now rewrite IH.
Qed.

(** X2: the list that discovery returns is a rearrangement of the candidates
    that the loop collected, none lost and none added; and the folders that
    share a sort key (the bare names in their various cases, or numbers that
    differ in leading zeros only) stand in the order of the listing. *)
Theorem discovery_stable
        (t : node) (directory : path) (folders : list path) :
  find_bootanimation_folders t directory = Ok folders ->
  Permutation folders (candidates t directory) /\
  forall k,
    filter (fun p => tuple_eqb (sort_key p) k) folders =
    filter (fun p => tuple_eqb (sort_key p) k) (candidates t directory).
Proof.
  unfold find_bootanimation_folders, iterdir, candidates, listing_at.
  destruct (stat t directory) as [[|es|]|]; try discriminate.
  intros [= <-]. split.
  - apply sorted_perm.
  - intros k. apply sorted_by_stable.
Qed.

Lemma discovery_stable_witness :
  filter (fun p => tuple_eqb (sort_key p) (1, 2))
         [["d"; "BOOTANIMATION002"]; ["d"; "bootanimation2"]] =
  filter (fun p => tuple_eqb (sort_key p) (1, 2))
         (candidates
            (Dir [("d", Dir [("bootanimation7", Dir []);
                             ("BOOTANIMATION002", Dir []);
                             ("bootanimation2", Dir [])])])
            ["d"]).
Proof.
  apply (proj2 (discovery_stable
                  (Dir [("d", Dir [("bootanimation7", Dir []);
                                   ("BOOTANIMATION002", Dir []);
                                   ("bootanimation2", Dir [])])])
                  ["d"]
                  [["d"; "BOOTANIMATION002"]; ["d"; "bootanimation2"];
                   ["d"; "bootanimation7"]]
                  eq_refl) (1, 2)).
Defined.

(** ** Errors that reach the caller, and errors that do not *)





(** X6: asked to archive a folder that does not exist or is not a
    directory, the archiving step still creates the archive, with no member
    in it, prints nothing and returns [True]: the walk yields nothing. *)
Theorem archiving_missing_folder (folder out : path) (w : world) :
  path_is_dir (fs w) folder = false ->
  ~ is_prefix folder out ->
  writable (fs w) out = true ->
  exists w',
    zip_folder_store_only folder out w = (Ok true, w') /\
    stat (fs w') out = Some (File (Archive [])) /\
    stdout w' = stdout w.
Proof.
  intros Hd Hp Hw. rewrite zip_folder_store_only_eq, zip_body_eq.
  unfold writable in Hw.
  destruct (write_file (fs w) out (Raw "")) as [|t1] eqn:E1; [discriminate|].
  assert (write_tree t1 folder [] = (Ok tt, [])) as Et.
  { unfold write_tree, path_is_dir in *.
    rewrite (write_file_frame _ _ _ _ _ E1 Hp).
    destruct (stat (fs w) folder) as [[x|es|]|]; try discriminate;
      reflexivity. }
  rewrite Et. cbn [fst snd].
  destruct (write_file_again _ _ _ _ (Archive []) E1) as [t2 E2].
  rewrite E2. eexists. split; [reflexivity|]. split; [|reflexivity].
  exact (write_file_stat _ _ _ _ E2).
Qed.

Lemma archiving_missing_folder_witness :
  exists w',
    zip_folder_store_only ["in"; "absent"] ["in"; "absent.zip"] sample_world =
      (Ok true, w') /\
    stat (fs w') ["in"; "absent.zip"] = Some (File (Archive [])) /\
    stdout w' = [].
Proof.
  apply (archiving_missing_folder ["in"; "absent"] ["in"; "absent.zip"]
                                  sample_world).
  - reflexivity.
  - intros [r E]. discriminate.
  - reflexivity.
Defined.

(** ** What is printed for a folder *)



(** ** What a run changes in the tree *)

Lemma process_folder_frame (w : world) (folder : path) (s f : Z) (p : path) :
  pattern_match (name_of folder) <> None ->
  ~ is_prefix p (archive_path folder) ->
  stat (fs (snd (process_folder folder (s, f) w))) p = stat (fs w) p.
Proof.
  intros Hm Hp.
  destruct (process_folder_outcome w folder s f Hm) as (w' & -> & _ & Ht).
  cbn [snd]. destruct Ht as [->|(t1 & c & E1 & E2)]; [reflexivity|].
  rewrite (write_file_frame _ _ _ _ _ E2 Hp).
  exact (write_file_frame _ _ _ _ _ E1 Hp).
Qed.

Lemma for_loop_frame (folders : list path) (p : path) :
  Forall (fun x => pattern_match (name_of x) <> None) folders ->
  (forall folder, In folder folders -> ~ is_prefix p (archive_path folder)) ->
  forall w c,
    stat (fs (snd (for_loop folders process_folder c w))) p = stat (fs w) p.
Proof.
  induction 1 as [|folder folders Hm _ IH]; intros Hp w [s f];
    cbn [for_loop]; [reflexivity|].
  pose proof (process_folder_frame w folder s f p Hm
                (Hp folder (or_introl eq_refl))) as Hfr.
  destruct (process_folder_outcome w folder s f Hm) as (w' & E & _).
  unfold bind. rewrite E in *. cbn [snd] in Hfr. rewrite <- Hfr.
  apply IH. intros x Hx. apply Hp. now right.
Qed.

Lemma discovered_names (t : node) (directory : path) (folders : list path) :
  find_bootanimation_folders t directory = Ok folders ->
  Forall (fun x => pattern_match (name_of x) <> None) folders.
Proof.
  intros Hf. eapply Forall_impl; [|exact (discovered_children _ _ _ Hf)].
  intros x (name & -> & H). now rewrite name_of_child.
Qed.

(** X8: a run over a directory changes the tree at the archives' paths
    only; in particular nothing at or below a discovered folder changes. *)
Theorem process_directory_touches_archives_only
        (w : world) (directory : path) (folders : list path) :
  find_bootanimation_folders (fs w) directory = Ok folders ->
  (forall p,
     (forall folder, In folder folders ->
                     ~ is_prefix p (archive_path folder)) ->
     stat (fs (snd (process_directory directory w))) p = stat (fs w) p) /\
  (forall folder q,
     In folder folders ->
     stat (fs (snd (process_directory directory w))) (folder ++ q) =
     stat (fs w) (folder ++ q)).
Proof.
  intros Hf.
  assert (forall p,
     (forall folder, In folder folders ->
                     ~ is_prefix p (archive_path folder)) ->
     stat (fs (snd (process_directory directory w))) p = stat (fs w) p) as K.
  { intros p Hp. rewrite (process_directory_eq _ _ _ Hf). cbv zeta.
    destruct folders as [|x l] eqn:E; [reflexivity|]. rewrite <- E in *.
    now rewrite (for_loop_frame folders p (discovered_names _ _ _ Hf) Hp). }
  split; [exact K|].
  intros folder q Hin. apply K. intros folder' Hin' Hp.
  pose proof (discovered_children _ _ _ Hf) as Hc.
  rewrite Forall_forall in Hc.
  destruct (Hc _ Hin) as (x & -> & Hx). destruct (Hc _ Hin') as (y & -> & Hy).
  unfold archive_path in Hp. rewrite parent_child, name_of_child in Hp.
  apply child_prefix_inv in Hp. subst x.
  apply pattern_match_no_dot in Hx as [Hx _]. revert Hx.
  now apply rfind_dot_app_r.
Qed.

Lemma process_directory_touches_archives_only_witness :
  stat (fs (snd (process_directory ["in"] sample_world)))
       ["in"; "BootAnimation2"; "part0"; "a.png"] =
  stat sample_tree ["in"; "BootAnimation2"; "part0"; "a.png"].
Proof.
  apply (proj2 (process_directory_touches_archives_only
                  sample_world ["in"]
                  [["in"; "bootanimation"]; ["in"; "BootAnimation2"];
                   ["in"; "bootanimation02"]; ["in"; "bootanimation10"]]
                  eq_refl)
               ["in"; "BootAnimation2"] ["part0"; "a.png"]).
  right. now left.
Defined.

(** ** The archive that a failed run leaves *)





(** ** Archives do not collide *)

Lemma string_app_inv_r (a b c : string) :
  (a ++ c)%string = (b ++ c)%string -> a = b.
Proof.
  revert b; induction a as [|x a IH]; intros [|y b] E; simpl in E.
  - reflexivity.
  - apply (f_equal String.length) in E. simpl in E.
    rewrite string_app_length in E. lia.
  - apply (f_equal String.length) in E. simpl in E.
    rewrite string_app_length in E. lia.
  - injection E as -> E. f_equal. now apply IH.
Qed.

(** [with_suffix] replaces a suffix that the name has, so two names that
    differ in their suffixes only get the same archive path; the names that
    discovery accepts have no suffix. *)
Example with_suffix_replaces_suffix :
  with_suffix ["in"; "a.b"] ".zip" = Ok ["in"; "a.zip"] /\
  with_suffix ["in"; "a.c"] ".zip" = Ok ["in"; "a.zip"].
Proof. split; reflexivity. Qed.

(** X10: two folders with names that discovery accepts and for which line
    100 computes the same archive path are the same folder, and the name of
    the archive of such a folder is never a name that discovery accepts. *)
Theorem archive_paths_distinct (folder1 folder2 out1 out2 : path) :
  pattern_match (name_of folder1) <> None ->
  pattern_match (name_of folder2) <> None ->
  with_suffix folder1 ".zip" = Ok out1 ->
  with_suffix folder2 ".zip" = Ok out2 ->
  (out1 = out2 -> folder1 = folder2) /\
  pattern_match (name_of out1) = None.
Proof.
  intros H1 H2 E1 E2.
  rewrite (with_suffix_discovered _ H1) in E1. injection E1 as <-.
  rewrite (with_suffix_discovered _ H2) in E2. injection E2 as <-.
  apply pattern_match_no_dot in H1 as [D1 N1], H2 as [D2 N2].
  split.
  - unfold archive_path, joinpath. intros E.
    apply app_inj_tail in E as [Ep En]. apply string_app_inv_r in En.
    rewrite (path_split_last folder1 (name_of_nonempty _ N1)),
            (path_split_last folder2 (name_of_nonempty _ N2)).
    congruence.
  - unfold archive_path. rewrite name_of_child.
    destruct (pattern_match (name_of folder1 ++ ".zip")) eqn:E;
      [|reflexivity].
    exfalso.
    assert (pattern_match (name_of folder1 ++ ".zip") <> None) as K
        by congruence.
    apply pattern_match_no_dot in K as [K _]. revert K.
    now apply rfind_dot_app_r.
Qed.

Lemma archive_paths_distinct_witness :
  (["in"; "bootanimation.zip"] = ["in"; "BOOTANIMATION.zip"] ->
   ["in"; "bootanimation"] = ["in"; "BOOTANIMATION"]) /\
  pattern_match (name_of ["in"; "bootanimation.zip"]) = None.
Proof.
  apply (archive_paths_distinct ["in"; "bootanimation"] ["in"; "BOOTANIMATION"]
                                ["in"; "bootanimation.zip"]
                                ["in"; "BOOTANIMATION.zip"]);
    try discriminate; reflexivity.
Defined.

(** ** Member names *)

Lemma regular_files_below (n : node) :
  forall rel p d,
    In (p, d) (regular_files n rel) -> exists q, p = rel ++ q /\ q <> [].
Proof.
  induction n as [x| |es IH] using node_induction; intros rel p d;
    try (simpl; tauto).
  cbn [regular_files]. rewrite in_flat_map. intros ([k c] & Hin & Hp).
  cbn [fst snd] in Hp. rewrite Forall_forall in IH.
  destruct c as [x|es'|]; [| |easy].
  - destruct Hp as [[= <- _]|[]]. now exists [k].
  - destruct (IH _ Hin _ _ _ Hp) as (q & -> & _).
    exists (k :: q). unfold joinpath. rewrite <- app_assoc. now split.
Qed.

Lemma regular_files_head (es : listing) (rel p : path) (d : content) :
  In (p, d) (regular_files (Dir es) rel) ->
  exists e q, In e es /\ p = rel ++ fst e :: q.
Proof.
  cbn [regular_files]. rewrite in_flat_map. intros ([k c] & Hin & Hp).
  cbn [fst snd] in Hp. exists (k, c). cbn [fst].
  destruct c as [x|es'|]; [| |easy].
  - destruct Hp as [[= <- _]|[]]. now exists [].
  - destruct (regular_files_below _ _ _ _ Hp) as (q & -> & _).
    exists q. unfold joinpath. rewrite <- app_assoc. now split.
Qed.

Lemma regular_files_cons (e : string * node) (es : listing) (rel : path) :
  regular_files (Dir (e :: es)) rel =
  regular_files (Dir [e]) rel ++ regular_files (Dir es) rel.
Proof. cbn [regular_files flat_map]. now rewrite app_nil_r. Qed.

(** In a well-formed tree no two regular files have the same path. *)
Lemma regular_files_NoDup (n : node) :
  well_formed n = true ->
  forall rel, NoDup (map fst (regular_files n rel)).
Proof.
  induction n as [x| |es IH] using node_induction; intros Hw rel;
    try constructor.
  apply well_formed_Dir in Hw as [Hnd Hw].
  induction es as [|[k c] es IHes]; [constructor|].
  inversion_clear IH as [|? ? IHc IHrest].
  inversion_clear Hnd as [|? ? Hk Hnd'].
  rewrite regular_files_cons, map_app. apply NoDup_app.
  - cbn [regular_files flat_map fst snd]. rewrite app_nil_r.
    destruct c as [x|es'|]; [repeat constructor; easy| |constructor].
    apply IHc. apply (Hw k). now left.
  - apply IHes; trivial. intros k' c' Hin. apply (Hw k'). now right.
  - intros p Hp1 Hp2.
    apply in_map_iff in Hp1 as ([p1 d1] & <- & Hp1).
    apply in_map_iff in Hp2 as ([p2 d2] & E & Hp2). cbn [fst] in E. subst p2.
    apply regular_files_head in Hp1 as (e1 & q1 & He1 & E1).
    apply regular_files_head in Hp2 as (e2 & q2 & He2 & E2).
    destruct He1 as [<-|[]]. rewrite E1 in E2. apply app_inv_head in E2.
    injection E2 as E2 _. cbn [fst] in E2. apply Hk. rewrite E2.
    now apply in_map.
Qed.

(** X11: in the archive of a discovered folder that the loop body counts as
    successful no two members have the same name, and no member has an
    empty name. *)
Theorem archive_names_unique (w w' : world) (folder : path) (s f : Z) :
  well_formed (fs w) = true ->
  pattern_match (name_of folder) <> None ->
  process_folder folder (s, f) w = (Ok (s + 1, f), w') ->
  exists members,
    stat (fs w') (archive_path folder) = Some (File (Archive members)) /\
    NoDup (map arcname members) /\
    Forall (fun m => arcname m <> []) members.
Proof.
  intros Hw Hm Hp.
  destruct (process_folder_success _ _ _ _ _ Hm Hp)
    as (n & Hv & Hs & Hok & Ha & _).
  exists (members_of_calls (write_calls n [])). split; [exact Ha|].
  pose proof (well_formed_stat _ _ _ Hw Hs) as Hwn.
  destruct (members_of_calls_stored _ Hok (write_calls_nondir n Hwn []))
    as [E _].
  pose proof (write_calls_regular_files n Hwn []) as HP. rewrite <- E in HP.
  assert (map arcname (members_of_calls (write_calls n [])) =
          map fst (map stored (members_of_calls (write_calls n [])))) as Ea
      by (rewrite map_map; reflexivity).
  split.
  - rewrite Ea. eapply Permutation_NoDup;
      [symmetry; apply Permutation_map; exact HP|].
    now apply regular_files_NoDup.
  - apply Forall_forall. intros m Hin Hnil.
    assert (In (stored m) (regular_files n [])) as Hr.
    { eapply Permutation_in; [exact HP|]. now apply in_map. }
    unfold stored in Hr. rewrite Hnil in Hr.
    apply regular_files_below in Hr as (q & E' & Hq). simpl in E'. congruence.
Qed.

Lemma archive_names_unique_witness :
  exists members,
    stat (fs (snd (process_folder ["in"; "BootAnimation2"] (0, 0) sample_world)))
         (archive_path ["in"; "BootAnimation2"]) =
      Some (File (Archive members)) /\
    NoDup (map arcname members) /\
    Forall (fun m => arcname m <> []) members.
Proof.
  apply (archive_names_unique
           sample_world
           (snd (process_folder ["in"; "BootAnimation2"] (0, 0) sample_world))
           ["in"; "BootAnimation2"] 0 0).
  - reflexivity.
  - discriminate.
  - reflexivity.
Defined.

(** ** Running the script again *)

Lemma map_fst_replace_entry (name : string) (m : node) (es : listing) :
  map fst (replace_entry name m es) = map fst es.
Proof.
  induction es as [|[k v] es IH]; [reflexivity|]. cbn [replace_entry].
  destruct (String.eqb name k); cbn [map fst]; [reflexivity|now rewrite IH].
Qed.

(** The listing of a directory after one of its children was written. *)
Lemma write_file_listing (t t' : node) (d : path) (z : string) (c : content) :
  write_file t (d // z) c = inr t' ->
  listing_at t' d =
  match assoc z (listing_at t d) with
  | Some _ => replace_entry z (File c) (listing_at t d)
  | None => listing_at t d ++ [(z, File c)]
  end.
Proof.
  unfold joinpath, listing_at. revert t t'.
  induction d as [|x d IH]; intros t t'; simpl.
  - destruct t as [|es|]; try discriminate.
    destruct (assoc z es) as [[| |]|]; try discriminate; now intros [= <-].
  - destruct t as [|es|]; try discriminate.
    destruct (assoc x es) as [m|] eqn:E.
    + destruct (write_file m (d ++ [z]) c) as [|m'] eqn:Em; [discriminate|].
      intros [= <-]. simpl. erewrite assoc_replace_same by exact E.
      now apply IH.
    + destruct (d ++ [z]) eqn:Ed; [now destruct d|discriminate].
Qed.

Lemma find_candidates (t : node) (directory : path) :
  path_is_dir t directory = true ->
  find_bootanimation_folders t directory =
  Ok (sorted_by sort_key (candidates t directory)).
Proof.
  unfold path_is_dir, find_bootanimation_folders, iterdir, candidates,
    listing_at.
  now destruct (stat t directory) as [[| |]|].
Qed.

(** Writing a child whose name has a dot does not change what discovery
    returns. *)
Lemma find_after_write (t t' : node) (d : path) (z : string) (c : content) :
  write_file t (d // z) c = inr t' ->
  rfind_dot z <> None ->
  find_bootanimation_folders t' d = find_bootanimation_folders t d.
Proof.
  intros Hw Hz.
  destruct (write_file_writable _ _ _ _ Hw) as [W W'].
  apply writable_child in W as [Wd _]. apply writable_child in W' as [Wd' _].
  rewrite !find_candidates by assumption. f_equal. f_equal.
  assert (pattern_match z = None) as Hpz.
  { destruct (pattern_match z) eqn:E; [|reflexivity]. exfalso.
    assert (pattern_match z <> None) as K by congruence.
    apply pattern_match_no_dot in K as [K _]. contradiction. }
  assert (forall item,
             In item (map (fun e => d // fst e) (listing_at t d)) ->
             (path_is_dir t' item &&
              match pattern_match (name_of item) with
              | Some _ => true
              | None => false
              end) =
             (path_is_dir t item &&
              match pattern_match (name_of item) with
              | Some _ => true
              | None => false
              end)) as Hext.
  { intros item Hin. apply in_map_iff in Hin as ([k v] & <- & _).
    cbn [fst]. rewrite name_of_child.
    destruct (String.eqb_spec k z) as [->|Hk].
    - rewrite Hpz. now rewrite !andb_false_r.
    - destruct (write_file_sibling _ _ _ _ _ Hw) as [_ Hs].
      specialize (Hs k [] Hk). rewrite !app_nil_r in Hs.
      unfold path_is_dir. now rewrite Hs. }
  unfold candidates, matching_items.
  rewrite (write_file_listing _ _ _ _ _ Hw).
  destruct (assoc z (listing_at t d)).
  - rewrite <- (map_map fst (fun k => d // k)), map_fst_replace_entry,
      (map_map fst (fun k => d // k)).
    now apply filter_ext_in.
  - rewrite map_app, filter_app. cbn [map filter fst].
    rewrite name_of_child, Hpz, andb_false_r, app_nil_r.
    now apply filter_ext_in.
Qed.

Lemma process_folder_discovery (w : world) (d : path) (name : string) (s f : Z) :
  pattern_match name <> None ->
  find_bootanimation_folders
    (fs (snd (process_folder (d // name) (s, f) w))) d =
  find_bootanimation_folders (fs w) d.
Proof.
  intros Hm.
  assert (pattern_match (name_of (d // name)) <> None) as Hm'
      by now rewrite name_of_child.
  destruct (process_folder_outcome w (d // name) s f Hm')
    as (w' & -> & _ & Ht).
  cbn [snd]. destruct Ht as [->|(t1 & c & E1 & E2)]; [reflexivity|].
  unfold archive_path in E1, E2. rewrite parent_child, name_of_child in *.
  assert (rfind_dot (name ++ ".zip") <> None) as Hz
      by now apply rfind_dot_app_r.
  rewrite (find_after_write _ _ _ _ _ E2 Hz).
  exact (find_after_write _ _ _ _ _ E1 Hz).
Qed.

Lemma for_loop_discovery (d : path) (folders : list path) :
  Forall (fun p => exists name, p = d // name /\ pattern_match name <> None)
         folders ->
  forall w c,
    find_bootanimation_folders
      (fs (snd (for_loop folders process_folder c w))) d =
    find_bootanimation_folders (fs w) d.
Proof.
  induction 1 as [|folder folders (name & -> & Hm) _ IH]; intros w [s f];
    cbn [for_loop]; [reflexivity|].
  pose proof (process_folder_discovery w d name s f Hm) as Hd.
  assert (pattern_match (name_of (d // name)) <> None) as Hm'
      by now rewrite name_of_child.
  destruct (process_folder_outcome w (d // name) s f Hm') as (w' & E & _).
  unfold bind. rewrite E in *. cbn [snd] in Hd. rewrite <- Hd. apply IH.
Qed.

Lemma count_ext_in (A : Type) (p q : A -> bool) (l : list A) :
  (forall x, In x l -> p x = q x) -> count p l = count q l.
Proof. intros H. unfold count. now rewrite (filter_ext_in _ _ _ H). Qed.

(** After a run, the tree is as good as before for processing the same
    directory, and discovery returns the same folders. *)
Lemma process_directory_again (w : world) (directory : path)
      (folders : list path) :
  find_bootanimation_folders (fs w) directory = Ok folders ->
  unchanged_for directory (fs w) (fs (snd (process_directory directory w))) /\
  find_bootanimation_folders (fs (snd (process_directory directory w)))
                             directory = Ok folders.
Proof.
  intros Hf. rewrite (process_directory_eq _ _ _ Hf). cbv zeta.
  destruct folders as [|x l] eqn:E.
  - split; [apply unchanged_for_refl|exact Hf].
  - rewrite <- E in *. clear E.
    match goal with
    | |- context [for_loop folders process_folder (0, 0) ?w1] =>
        pose proof (for_loop_discovery directory folders
                      (discovered_children _ _ _ Hf) w1 (0, 0)) as Hd;
        destruct (for_loop_counts directory (fs w) folders
                    (discovered_children _ _ _ Hf) w1 0 0
                    (unchanged_for_refl _ _))
          as (w' & E' & _ & Hu)
    end.
    rewrite E' in *. cbn [snd fs add_line] in *. split; [exact Hu|].
    now rewrite Hd.
Qed.

(** X12: running the script again on the directory it has just processed
    finds the same folders in the same order, the archives it wrote not
    among them, and returns the same pair of counts. *)
Theorem rerun_same_result (w : world) (directory : path) :
  path_is_dir (fs w) directory = true ->
  find_bootanimation_folders (fs (snd (process_directory directory w)))
                             directory =
    find_bootanimation_folders (fs w) directory /\
  fst (process_directory directory (snd (process_directory directory w))) =
    fst (process_directory directory w).
Proof.
  intros Hd.
  destruct (find_bootanimation_folders_ok _ _ Hd) as [folders Hf].
  destruct (process_directory_again _ _ _ Hf) as [Hu Hf'].
  split; [congruence|].
  remember (snd (process_directory directory w)) as wa eqn:Ewa.
  destruct (process_directory_result wa _ _ Hf') as (w2 & -> & _).
  destruct (process_directory_result w _ _ Hf) as (w1 & -> & _).
  cbn [fst]. pose proof (discovered_children _ _ _ Hf) as Hc.
  rewrite Forall_forall in Hc.
  assert (forall p, In p folders ->
                    succeeds (fs wa) p = succeeds (fs w) p) as Hs.
  { intros p Hp. destruct (Hc _ Hp) as (name & -> & Hm).
    now apply succeeds_unchanged. }
  do 2 f_equal; apply count_ext_in; intros p Hp; now rewrite Hs.
Qed.

Lemma rerun_same_result_witness :
  fst (process_directory ["in"] (snd (process_directory ["in"] sample_world))) =
  fst (process_directory ["in"] sample_world).
Proof.
  apply (proj2 (rerun_same_result sample_world ["in"] eq_refl)).
Defined.

(** ** The order of the members in the archive *)

(** X13: in the archive of a discovered folder that the loop body counts as
    successful the members stand in the order of the walk: the files of a
    directory in ascending order of their names, before the files of its
    subdirectories, which follow in ascending order of the subdirectories'
    names. *)
Theorem archive_members_in_walk_order
        (w w' : world) (folder : path) (s f : Z) :
  well_formed (fs w) = true ->
  pattern_match (name_of folder) <> None ->
  process_folder folder (s, f) w = (Ok (s + 1, f), w') ->
  exists members,
    stat (fs w') (archive_path folder) = Some (File (Archive members)) /\
    StronglySorted (fun p q => walk_before p q = true) (map arcname members).
Proof.
  intros Hw Hm Hp.
  destruct (process_folder_success _ _ _ _ _ Hm Hp)
    as (n & Hv & Hs & Hok & Ha & _).
  exists (members_of_calls (write_calls n [])). split; [exact Ha|].
  rewrite (members_of_calls_names _ Hok).
  apply write_calls_sorted. exact (well_formed_stat _ _ _ Hw Hs).
Qed.

Lemma archive_members_in_walk_order_witness :
  exists members,
    stat (fs (snd (process_folder ["in"; "BootAnimation2"] (0, 0) sample_world)))
         (archive_path ["in"; "BootAnimation2"]) =
      Some (File (Archive members)) /\
    StronglySorted (fun p q => walk_before p q = true) (map arcname members).
Proof.
  apply (archive_members_in_walk_order
           sample_world
           (snd (process_folder ["in"; "BootAnimation2"] (0, 0) sample_world))
           ["in"; "BootAnimation2"] 0 0).
  - reflexivity.
  - discriminate.
  - reflexivity.
Defined.

(** ** Each folder once *)

Lemma NoDup_map_joinpath (d : path) (names : list string) :
  NoDup names -> NoDup (map (joinpath d) names).
Proof.
  induction 1 as [|x l Hx Hl IH]; simpl; constructor; [|exact IH].
  intros Hin. apply in_map_iff in Hin as (y & E & Hy).
  unfold joinpath in E. apply app_inj_tail in E as [_ ->]. contradiction.
Qed.

(** X14: in a tree whose listings do not repeat a name, discovery returns
    no folder twice, so no folder is processed twice. *)
Theorem discovery_no_repeat
        (t : node) (directory : path) (folders : list path) :
  well_formed t = true ->
  find_bootanimation_folders t directory = Ok folders ->
  NoDup folders.
Proof.
  intros Hw. unfold find_bootanimation_folders, iterdir.
  destruct (stat t directory) as [[|es|]|] eqn:Hs; try discriminate.
  intros [= <-].
  eapply Permutation_NoDup; [symmetry; apply sorted_perm|].
  unfold matching_items. apply NoDup_filter.
  rewrite <- (map_map fst (fun k => directory // k)).
  apply NoDup_map_joinpath.
  now apply (well_formed_Dir es), (well_formed_stat t directory).
Qed.

Lemma discovery_no_repeat_witness :
  NoDup [["in"; "bootanimation"]; ["in"; "BootAnimation2"];
         ["in"; "bootanimation02"]; ["in"; "bootanimation10"]].
Proof.
  apply (discovery_no_repeat sample_tree ["in"]); reflexivity.
Defined.

(** ** The summary *)

(** X15: on a directory, the last two lines that [main] prints are the rule
    and the summary, and the summary reports the number of discovered
    folders that are valid and archived and the number of the others. *)
Theorem main_summary
        (a0 arg1 : string) (rest : list string) (w : world)
        (folders : list path) :
  let directory := resolve (cwd w) arg1 in
  path_is_dir (fs w) directory = true ->
  find_bootanimation_folders (fs w) directory = Ok folders ->
  stdout (snd (main (a0 :: arg1 :: rest) w)) =
  stdout (snd (process_directory directory w)) ++
  [repeat_str "-" 60;
   ("Done! Successful: " ++ str_int (count (succeeds (fs w)) folders) ++
    ", Skipped/Failed: " ++
    str_int (count (fun p => negb (succeeds (fs w) p)) folders))%string].
Proof.
  intros directory Hd Hf. subst directory.
  destruct (process_directory_result _ _ _ Hf) as (w' & E & _).
  unfold main, bind. cbn [fst snd].
  rewrite (path_is_dir_exists _ _ Hd), Hd. cbn [negb].
  rewrite E.
  unfold print, sys_exit, raise, ret. cbn [fst snd stdout].
  destruct (0 <? _); cbn [snd stdout]; now rewrite <- app_assoc.
Qed.

Lemma main_summary_witness :
  stdout (snd (main ["zip_bootanimation.py"; "in"] sample_world)) =
  stdout (snd (process_directory ["in"] sample_world)) ++
  [repeat_str "-" 60; "Done! Successful: 1, Skipped/Failed: 3"].
Proof.
  apply (main_summary "zip_bootanimation.py" "in" [] sample_world
           [["in"; "bootanimation"]; ["in"; "BootAnimation2"];
            ["in"; "bootanimation02"]; ["in"; "bootanimation10"]]);
    reflexivity.
Defined.
